(** * Loaders and directives of the core package: a shallow embedding

    The three source files modelled here are thin adapters around the host
    document:

    - [packages/core/useScriptTag/index.ts]   (module [UseScriptTag])
    - [packages/core/useStyleTag/index.ts]    (module [UseStyleTag])
    - [packages/core/onClickOutside/directive.ts] (module [Directive])

    Their closures mutate a handful of shared cells (a memoised promise, a
    shallow ref, the document).  Every function is therefore written in
    explicit state-passing style over a record holding those cells, and the
    host objects they touch (elements, promises, listeners, watchers) live in
    stores indexed by natural numbers, so that identity ("the very same
    promise", "a new element") is equality of indices. *)

From stdpp Require Import gmap strings list fin_maps pretty.

(** ** The host document *)

Module Dom.

(** Elements are named by their index in the store of nodes. *)
Abbreviation NodeId := nat (only parsing).

Inductive EventType := load_event | error_event | abort_event.

#[global] Instance EventType_eq_dec : EqDecision EventType.
Proof. solve_decision. Defined.

Record Event := { ev_type : EventType; ev_target : NodeId }.

#[global] Instance Event_eq_dec : EqDecision Event.
Proof. solve_decision. Defined.

(** How a call that can throw ends. *)
Inductive Exception := NotFoundError | TypeError.

Inductive Completion := returned | threw (e : Exception).

(** An element: its content attributes, its text, and the internal slot
    [[CryptographicNonce]] that the IDL attribute [nonce] reads and writes
    (the content attribute [nonce] is another thing, kept in [attributes]). *)
Record Element := {
  localName : string;
  attributes : gmap string string;
  textContent : string;
  cryptographicNonce : string }.

(** [nodes] holds every element ever created, connected or not; a node id is
    an index into it.  [head] lists the children of the head element in
    order.  [elsewhere] lists the connected elements that are not children of
    head (the body's content); they follow the head in document order. *)
Record Document := {
  nodes : list Element;
  head : list NodeId;
  elsewhere : list NodeId }.

Definition set_nodes (ns : list Element) (d : Document) : Document :=
  {| nodes := ns; head := head d; elsewhere := elsewhere d |}.

(** The connected elements in document order. *)
Definition tree (d : Document) : list NodeId := head d ++ elsewhere d.

Definition isConnected (el : NodeId) (d : Document) : bool :=
  bool_decide (el ∈ tree d).

Definition getAttribute (name : string) (el : NodeId) (d : Document) : option string :=
  e ← nodes d !! el; attributes e !! name.

Definition hasAttribute (name : string) (el : NodeId) (d : Document) : bool :=
  bool_decide (is_Some (getAttribute name el d)).

(** Writing the content attribute [name] of [el].  This is what assignment
    to a reflecting IDL attribute ([el.type], [el.src], [el.id], ...) does,
    and what [el.setAttribute(name, value)] does for a name that is already
    lower-case.  A change of the content attribute [nonce] is copied to the
    nonce slot. *)
Definition setAttribute (name value : string) (el : NodeId) (d : Document) : Document :=
  set_nodes
    (alter (λ e, {| localName := localName e;
                    attributes := <[name := value]> (attributes e);
                    textContent := textContent e;
                    cryptographicNonce :=
                      if bool_decide (name = "nonce") then value
                      else cryptographicNonce e |}) el (nodes d)) d.

Definition removeAttribute (name : string) (el : NodeId) (d : Document) : Document :=
  set_nodes
    (alter (λ e, {| localName := localName e;
                    attributes := delete name (attributes e);
                    textContent := textContent e;
                    cryptographicNonce :=
                      if bool_decide (name = "nonce") then ""
                      else cryptographicNonce e |}) el (nodes d)) d.

(** Assignment to a boolean IDL attribute such as [async] or [defer]. *)
Definition setBoolean (name : string) (b : bool) (el : NodeId) (d : Document) : Document :=
  if b then setAttribute name "" el d else removeAttribute name el d.

(** [el.nonce = value]: the IDL attribute writes the internal slot and no
    content attribute. *)
Definition setNonce (value : string) (el : NodeId) (d : Document) : Document :=
  set_nodes
    (alter (λ e, {| localName := localName e;
                    attributes := attributes e;
                    textContent := textContent e;
                    cryptographicNonce := value |}) el (nodes d)) d.

(** [el.nonce] *)
Definition getNonce (el : NodeId) (d : Document) : option string :=
  cryptographicNonce <$> nodes d !! el.

Definition ascii_lowercase (c : Ascii.ascii) : Ascii.ascii :=
  let n := Ascii.N_of_ascii c in
  if (65 <=? n)%N && (n <=? 90)%N then Ascii.ascii_of_N (n + 32) else c.

Fixpoint lowercase (v : string) : string :=
  match v with
  | EmptyString => EmptyString
  | String c v => String (ascii_lowercase c) (lowercase v)
  end.

Definition is_letter (c : Ascii.ascii) : bool :=
  let n := Ascii.N_of_ascii c in
  ((65 <=? n)%N && (n <=? 90)%N) || ((97 <=? n)%N && (n <=? 122)%N).

Definition is_name_char (c : Ascii.ascii) : bool :=
  let n := Ascii.N_of_ascii c in
  is_letter c || ((48 <=? n)%N && (n <=? 57)%N) ||
  (n =? 45)%N || (n =? 46)%N || (n =? 95)%N.

Fixpoint name_chars (v : string) : bool :=
  match v with
  | EmptyString => true
  | String c v => is_name_char c && name_chars v
  end.

(** A name every version of the DOM accepts as an attribute name: a letter
    or [_], then letters, digits, [-], [.] and [_].  For any other name
    [el.setAttribute] may throw InvalidCharacterError, which the model does
    not follow; the theorems that depend on the custom attributes being set
    take [plain_name] as a hypothesis. *)
Definition plain_name (v : string) : bool :=
  match v with
  | EmptyString => false
  | String c v => (is_letter c || (Ascii.N_of_ascii c =? 95)%N) && name_chars v
  end.

(** [el.setAttribute(name, value)] on an HTML element of an HTML document:
    the name is lower-cased. *)
Definition Element_setAttribute (name value : string) (el : NodeId) (d : Document) : Document :=
  setAttribute (lowercase name) value el d.

Definition setTextContent (value : string) (el : NodeId) (d : Document) : Document :=
  set_nodes
    (alter (λ e, {| localName := localName e;
                    attributes := attributes e;
                    textContent := value;
                    cryptographicNonce := cryptographicNonce e |}) el (nodes d)) d.

Definition getTextContent (el : NodeId) (d : Document) : option string :=
  textContent <$> nodes d !! el.

(** [document.createElement(tag)]: a fresh, disconnected element. *)
Definition createElement (tag : string) (d : Document) : NodeId * Document :=
  (length (nodes d),
   set_nodes (nodes d ++ [ {| localName := tag; attributes := ∅; textContent := "";
                              cryptographicNonce := "" |} ]) d).

(** The characters that do not stand for themselves inside a double-quoted
    CSS string: the quote, the backslash, a newline (LF, FF, CR) and NUL. *)
Definition breaks_selector (c : Ascii.ascii) : bool :=
  let n := Ascii.N_of_ascii c in
  (n =? 0)%N || (n =? 10)%N || (n =? 12)%N || (n =? 13)%N || (n =? 34)%N || (n =? 92)%N.

(** The source builds the selector by interpolation,
    [`script[src="${v}"]`].  For a [v] without such a character this is the
    selector for the scripts whose src attribute is [v], which is what
    [querySelector_script_src] below looks up.  For any other [v] the
    selector is another one or none at all (querySelector then throws a
    SyntaxError), which the model does not follow; the theorems that depend
    on what the lookup returns take [selector_safe] as a hypothesis. *)
Fixpoint selector_safe (v : string) : bool :=
  match v with
  | EmptyString => true
  | String c v => negb (breaks_selector c) && selector_safe v
  end.

(** Does [el] match the selector [script[src="v"]]? *)
Definition matches_script_src (v : string) (d : Document) (el : NodeId) : bool :=
  match nodes d !! el with
  | Some e => bool_decide (localName e = "script" ∧ attributes e !! "src" = Some v)
  | None => false
  end.

(** [document.querySelector(`script[src="${v}"]`)] for a [v] that is
    [selector_safe]: the first match in document order, or null. *)
Definition querySelector_script_src (v : string) (d : Document) : option NodeId :=
  List.find (matches_script_src v d) (tree d).

Definition has_id (v : string) (d : Document) (el : NodeId) : bool :=
  bool_decide (getAttribute "id" el d = Some v).

(** [document.getElementById(v)]: the first connected element whose id is
    [v]; the empty id never matches. *)
Definition getElementById (v : string) (d : Document) : option NodeId :=
  if bool_decide (v = "") then None else List.find (has_id v d) (tree d).

Definition without (el : NodeId) (l : list NodeId) : list NodeId :=
  filter (λ x, x ≠ el) l.

(** [document.head.appendChild(el)]: [el] leaves its old place, if any, and
    becomes the last child of head.  (Under a Content Security Policy sent
    in a header the browser also blanks the [nonce] content attribute of the
    inserted element; the model does not follow this, and what is proved of
    an element's attributes leaves a custom attribute of that name out.) *)
Definition head_appendChild (el : NodeId) (d : Document) : Document :=
  {| nodes := nodes d;
     head := without el (head d) ++ [el];
     elsewhere := without el (elsewhere d) |}.

(** [document.head.removeChild(el)]: throws (here [None]) unless [el] is a
    child of head. *)
Definition head_removeChild (el : NodeId) (d : Document) : option Document :=
  if bool_decide (el ∈ head d)
  then Some {| nodes := nodes d; head := without el (head d); elsewhere := elsewhere d |}
  else None.

(** [d'] differs from [d] at most in the attributes, the nonce slot and the
    text of [el]. *)
Definition touches (el : NodeId) (d d' : Document) : Prop :=
  length (nodes d') = length (nodes d) ∧ head d' = head d ∧ elsewhere d' = elsewhere d ∧
  (∀ i, i ≠ el → nodes d' !! i = nodes d !! i) ∧
  localName <$> nodes d' !! el = localName <$> nodes d !! el.

(** A node has one place in the tree, and the tree holds created nodes
    only. *)
Definition well_formed (d : Document) : Prop :=
  NoDup (tree d) ∧ ∀ el, el ∈ tree d → el < length (nodes d).


End Dom.

(** ** Promises *)

Module Promise.

Inductive Value := VFalse | VElement (el : Dom.NodeId).

Inductive Settlement :=
| Pending
| Fulfilled (v : Value)
| Rejected (reason : Dom.Event).

#[global] Instance Value_eq_dec : EqDecision Value.
Proof. solve_decision. Defined.

#[global] Instance Settlement_eq_dec : EqDecision Settlement.
Proof. solve_decision. Defined.

Abbreviation PromiseId := nat (only parsing).

(** A promise settles once; later calls of its [resolve] and [reject] are
    ignored. *)
Definition settle (p : PromiseId) (r : Settlement) (store : list Settlement) : list Settlement :=
  match store !! p with
  | Some Pending => <[p := r]> store
  | _ => store
  end.

Definition resolve (p : PromiseId) (v : Value) := settle p (Fulfilled v).
Definition reject (p : PromiseId) (e : Dom.Event) := settle p (Rejected e).

End Promise.

(** ** useScriptTag *)

Module UseScriptTag.
Import Dom Promise.

Inductive CrossOrigin := anonymous | use_credentials.

Inductive ReferrerPolicy :=
| no_referrer | no_referrer_when_downgrade | origin | origin_when_cross_origin
| same_origin | strict_origin | strict_origin_when_cross_origin | unsafe_url.

Definition CrossOrigin_value (c : CrossOrigin) : string :=
  match c with
  | anonymous => "anonymous"
  | use_credentials => "use-credentials"
  end.

Definition ReferrerPolicy_value (r : ReferrerPolicy) : string :=
  match r with
  | no_referrer => "no-referrer"
  | no_referrer_when_downgrade => "no-referrer-when-downgrade"
  | origin => "origin"
  | origin_when_cross_origin => "origin-when-cross-origin"
  | same_origin => "same-origin"
  | strict_origin => "strict-origin"
  | strict_origin_when_cross_origin => "strict-origin-when-cross-origin"
  | unsafe_url => "unsafe-url"
  end.

(** The options after destructuring, that is with the defaults filled in
    ([immediate], [async] true, [manual] false, [type] text/javascript,
    [attrs] empty).  The [document] option is a cell of [State] below.
    [attrs] is the object's entries in the order [Object.entries] lists
    them. *)
Record UseScriptTagOptions := {
  immediate : bool;
  async : bool;
  type : string;
  manual : bool;
  crossOrigin : option CrossOrigin;
  referrerPolicy : option ReferrerPolicy;
  noModule : option bool;
  defer : option bool;
  attrs : list (string * string);
  nonce : option string }.

Definition default_options : UseScriptTagOptions :=
  {| immediate := true; async := true; type := "text/javascript"; manual := false;
     crossOrigin := None; referrerPolicy := None; noModule := None; defer := None;
     attrs := []; nonce := None |}.

(** The three closures [loadScript] hands to [useEventListener]:
    [event => reject(event)] (twice) and the load callback.  Each remembers
    the promise whose executor created it; the load callback also remembers
    its element. *)
Inductive Handler :=
| reject_event (p : PromiseId)
| loaded (p : PromiseId) (el : NodeId).

Record Listener := { l_target : NodeId; l_type : EventType; l_handler : Handler }.

(** The cells one call of [useScriptTag] closes over, together with the
    host objects they refer to.  [src] is the current value of the
    ref-or-getter argument; [onLoaded_calls] records the elements the
    [onLoaded] callback has been called with, oldest first. *)
Record State := {
  document : option Document;
  src : string;
  scriptTag : option NodeId;
  _promise : option PromiseId;
  promises : list Settlement;
  listeners : list Listener;
  onLoaded_calls : list NodeId }.

Definition set_document (d : option Document) (s : State) : State :=
  {| document := d; src := src s; scriptTag := scriptTag s; _promise := _promise s;
     promises := promises s; listeners := listeners s; onLoaded_calls := onLoaded_calls s |}.

Definition set_src (v : string) (s : State) : State :=
  {| document := document s; src := v; scriptTag := scriptTag s; _promise := _promise s;
     promises := promises s; listeners := listeners s; onLoaded_calls := onLoaded_calls s |}.

Definition set_scriptTag (v : option NodeId) (s : State) : State :=
  {| document := document s; src := src s; scriptTag := v; _promise := _promise s;
     promises := promises s; listeners := listeners s; onLoaded_calls := onLoaded_calls s |}.

Definition set__promise (v : option PromiseId) (s : State) : State :=
  {| document := document s; src := src s; scriptTag := scriptTag s; _promise := v;
     promises := promises s; listeners := listeners s; onLoaded_calls := onLoaded_calls s |}.

Definition set_promises (v : list Settlement) (s : State) : State :=
  {| document := document s; src := src s; scriptTag := scriptTag s; _promise := _promise s;
     promises := v; listeners := listeners s; onLoaded_calls := onLoaded_calls s |}.

Definition set_listeners (v : list Listener) (s : State) : State :=
  {| document := document s; src := src s; scriptTag := scriptTag s; _promise := _promise s;
     promises := promises s; listeners := v; onLoaded_calls := onLoaded_calls s |}.

Definition set_onLoaded_calls (v : list NodeId) (s : State) : State :=
  {| document := document s; src := src s; scriptTag := scriptTag s; _promise := _promise s;
     promises := promises s; listeners := listeners s; onLoaded_calls := v |}.

(** The state right after [useScriptTag(src, onLoaded, options)] returns. *)
Definition initial (d : option Document) (v : string) : State :=
  {| document := d; src := v; scriptTag := None; _promise := None;
     promises := []; listeners := []; onLoaded_calls := [] |}.

(** Modelled from the spec: [useEventListener] of
    [packages/core/useEventListener], the "event registration primitive ...
    consumed to attach load/error/abort listeners": it attaches the listener
    to the target at once, after those already attached. *)
Definition useEventListener (target : NodeId) (ty : EventType) (h : Handler) (s : State) : State :=
  set_listeners (listeners s ++ [ {| l_target := target; l_type := ty; l_handler := h |} ]) s.

Definition truthy (v : string) : bool := bool_decide (v ≠ "").

Definition when (b : bool) (f : Document → Document) (d : Document) : Document :=
  if b then f d else d.

(** The closure [resolveWithElement] of the executor of promise [p]. *)
Definition resolveWithElement (p : PromiseId) (el : NodeId) (s : State) : State :=
  set_promises (resolve p (VElement el) (promises s)) (set_scriptTag (Some el) s).

(** The branch of [loadScript] that prepares a new element. *)
Definition prepare_script (o : UseScriptTagOptions) (v : string) (d : Document) : NodeId * Document :=
  let '(el, d) := createElement "script" d in
  let d := setAttribute "type" (type o) el d in
  let d := setBoolean "async" (async o) el d in
  let d := setAttribute "src" v el d in
  let d := when (default false (defer o)) (setBoolean "defer" true el) d in
  let d := match crossOrigin o with
           | Some c => setAttribute "crossorigin" (CrossOrigin_value c) el d
           | None => d
           end in
  let d := when (default false (noModule o)) (setBoolean "nomodule" true el) d in
  let d := match referrerPolicy o with
           | Some r => setAttribute "referrerpolicy" (ReferrerPolicy_value r) el d
           | None => d
           end in
  let d := match nonce o with
           | Some n => when (truthy n) (setNonce n el) d
           | None => d
           end in
  let d := foldl (λ d nv, Element_setAttribute nv.1 nv.2 el d) d (attrs o) in
  (el, d).

(** [loadScript(waitForScriptLoad)]: allocates the promise and runs its
    executor; returns the promise. *)
Definition loadScript (o : UseScriptTagOptions) (waitForScriptLoad : bool) (s : State)
  : PromiseId * State :=
  let p := length (promises s) in
  let s := set_promises (promises s ++ [Pending]) s in
  match document s with
  | None => (p, set_promises (resolve p VFalse (promises s)) s)
  | Some d =>
    let '(el, shouldAppend, s) :=
      match querySelector_script_src (src s) d with
      | None =>
        let '(el, d) := prepare_script o (src s) d in
        (el, true, set_document (Some d) s)
      | Some el =>
        (el, false, if hasAttribute "data-loaded" el d then resolveWithElement p el s else s)
      end in
    let s := useEventListener el error_event (reject_event p) s in
    let s := useEventListener el abort_event (reject_event p) s in
    let s := useEventListener el load_event (loaded p el) s in
    let s := if shouldAppend
             then set_document (head_appendChild el <$> document s) s
             else s in
    let s := if waitForScriptLoad then s else resolveWithElement p el s in
    (p, s)
  end.

(** [load(waitForScriptLoad = true)]. *)
Definition load (o : UseScriptTagOptions) (waitForScriptLoad : bool) (s : State)
  : PromiseId * State :=
  match _promise s with
  | Some p => (p, s)
  | None =>
    let '(p, s) := loadScript o waitForScriptLoad s in
    (p, set__promise (Some p) s)
  end.

(** [unload()]. *)
Definition unload (s : State) : Completion * State :=
  match document s with
  | None => (returned, s)
  | Some d =>
    let s := set__promise None s in
    let s := if scriptTag s is Some _ then set_scriptTag None s else s in
    match querySelector_script_src (src s) d with
    | None => (returned, s)
    | Some el =>
      match head_removeChild el d with
      | Some d => (returned, set_document (Some d) s)
      | None => (threw NotFoundError, s)
      end
    end
  end.

(** What a listener does when the browser calls it with event [ev]. *)
Definition run_handler (ev : Event) (h : Handler) (s : State) : State :=
  match h with
  | reject_event p => set_promises (reject p ev (promises s)) s
  | loaded p el =>
    let s := set_document (setAttribute "data-loaded" "true" el <$> document s) s in
    let s := set_onLoaded_calls (onLoaded_calls s ++ [el]) s in
    resolveWithElement p el s
  end.

Definition listens_to (ev : Event) (l : Listener) : bool :=
  bool_decide (l_target l = ev_target ev ∧ l_type l = ev_type ev).

(** The browser fires [ev]: the listeners attached to its target for its
    type run in the order they were attached. *)
Definition dispatchEvent (ev : Event) (s : State) : State :=
  foldl (λ s l, run_handler ev (l_handler l) s) s (List.filter (listens_to ev) (listeners s)).

(** What can happen to a loader: its two methods are called, the browser
    fires an event at an element, the [src] ref changes. *)
Inductive Op :=
| Load (waitForScriptLoad : bool)
| Unload
| Dispatch (ev : Event)
| SetSrc (v : string).

Definition step (o : UseScriptTagOptions) (op : Op) (s : State) : State :=
  match op with
  | Load w => (load o w s).2
  | Unload => (unload s).2
  | Dispatch ev => dispatchEvent ev s
  | SetSrc v => set_src v s
  end.

Definition run (o : UseScriptTagOptions) (ops : list Op) (s : State) : State :=
  foldl (λ s op, step o op s) s ops.

(** The promises returned by calling [load] with each argument of [ws] in
    turn, and the state afterwards. *)
Fixpoint loads (o : UseScriptTagOptions) (ws : list bool) (s : State)
  : list PromiseId * State :=
  match ws with
  | [] => ([], s)
  | w :: ws =>
    let '(p, s) := load o w s in
    let '(ps, s) := loads o ws s in
    (p :: ps, s)
  end.

(** The number of elements of the document, connected or not: it grows by
    one with every [createElement]. *)
Definition created (s : State) : nat :=
  match document s with
  | Some d => length (nodes d)
  | None => 0
  end.

(** What a caller holding promise [p] observes. *)
Definition outcome (p : PromiseId) (s : State) : option Settlement := promises s !! p.

(** The listeners one run of the executor of promise [p] attaches to [el]. *)
Definition attached (p : PromiseId) (el : NodeId) : list Listener :=
  [ {| l_target := el; l_type := error_event; l_handler := reject_event p |};
    {| l_target := el; l_type := abort_event; l_handler := reject_event p |};
    {| l_target := el; l_type := load_event; l_handler := loaded p el |} ].

(** Does the next run of [loadScript] build a new element? *)
Definition builds (s : State) : bool :=
  match document s with
  | Some d => bool_decide (querySelector_script_src (src s) d = None)
  | None => false
  end.

(** The script element a run of [loadScript] in state [s] works on: the one
    the lookup finds, or else the one it creates. *)
Definition script_of_load (s : State) : option NodeId :=
  d ← document s;
  Some (default (length (nodes d)) (querySelector_script_src (src s) d)).

(** The lifecycle hooks registered at the end of [useScriptTag]: the calls
    made on mount and on unmount. *)
Definition mount_hook (o : UseScriptTagOptions) : list Op :=
  if immediate o && negb (manual o) then [Load true] else [].

Definition unmount_hook (o : UseScriptTagOptions) : list Op :=
  if negb (manual o) then [Unload] else [].

Definition connected (el : NodeId) (s : State) : bool :=
  match document s with
  | Some d => isConnected el d
  | None => false
  end.

(** A listener as [loadScript] attaches them: the load callback of an
    element listens for load on that element, the rejecting closures listen
    for error or abort. *)
Definition well_attached (l : Listener) : Prop :=
  match l_handler l with
  | loaded _ el => l_type l = load_event ∧ l_target l = el
  | reject_event _ => l_type l ≠ load_event
  end.

(** Every listener is well attached, and every pending promise has its
    three listeners on some element. *)
Definition wired (s : State) : Prop :=
  Forall well_attached (listeners s) ∧
  ∀ p, promises s !! p = Some Pending → ∃ el, attached p el ⊆ listeners s.

(** Without a document: nothing listens and the memoised promise, if any, is
    fulfilled with [false]. *)
Definition inert (s : State) : Prop :=
  document s = None ∧ listeners s = [] ∧
  ∀ p, _promise s = Some p → outcome p s = Some (Fulfilled VFalse).


(** Sample documents. *)
Definition script_element (v : string) (ready : bool) : Element :=
  {| localName := "script";
     attributes := if ready then {[ "src" := v; "data-loaded" := "true" ]} else {[ "src" := v ]};
     textContent := ""; cryptographicNonce := "" |}.

Definition empty_document : Document := {| nodes := []; head := []; elsewhere := [] |}.

(** [<head><script src="x.js"></script></head>], loaded or not. *)
Definition one_script (ready : bool) : Document :=
  {| nodes := [script_element "x.js" ready]; head := [0]; elsewhere := [] |}.

(** The same script twice in head. *)
Definition two_scripts : Document :=
  {| nodes := [script_element "x.js" false; script_element "x.js" false];
     head := [0; 1]; elsewhere := [] |}.

(** The script in the body instead. *)
Definition script_in_body : Document :=
  {| nodes := [script_element "x.js" false]; head := []; elsewhere := [0] |}.

(** [<head><script src="y.js" data-loaded="true"></script></head>] *)
Definition ready_y : Document :=
  {| nodes := [script_element "y.js" true]; head := [0]; elsewhere := [] |}.

(** The script [x.js] twice in head, the second one loaded. *)
Definition second_ready : Document :=
  {| nodes := [script_element "x.js" false; script_element "x.js" true];
     head := [0; 1]; elsewhere := [] |}.


(** Sample histories on the empty document with src [x.js]. *)
Definition fresh : State := initial (Some empty_document) "x.js".

(** After [load(true)]: one script in head, its promise pending. *)
Definition loading : State := (load default_options true fresh).2.

Definition loading_document : Document := default empty_document (document loading).

Definition unloaded_document : Document :=
  default empty_document (document (unload loading).2).


(** Every listener sits on an element of the document. *)
Definition anchored (s : State) : Prop :=
  ∀ l, l ∈ listeners s → ∃ d, document s = Some d ∧ l_target l < length (nodes d).

(** How often a history calls [unload]. *)
Definition count_unloads (t : list Op) : nat :=
  length (List.filter (λ op, match op with Unload => true | _ => false end) t).

(** The connected scripts with src [v], in document order. *)
Definition matching (v : string) (d : Document) : list NodeId :=
  List.filter (matches_script_src v d) (tree d).

(** No two connected scripts share a src. *)
Definition unique_scripts (d : Document) : Prop := ∀ v, length (matching v d) ≤ 1.

(** The names of the custom attributes, and the names under which
    [setAttribute] stores them. *)
Definition attr_names (o : UseScriptTagOptions) : list string := (attrs o).*1.

Definition lowered_names (o : UseScriptTagOptions) : list string :=
  lowercase <$> attr_names o.

(** Every src a history assigns is [selector_safe]. *)
Definition safe_history (t : list Op) : bool :=
  forallb (λ op, match op with SetSrc v => selector_safe v | _ => true end) t.


(** Element [el] of [d] carries what [loadScript] gives a new script for
    src [v]: every custom attribute under its lower-cased name (when no two
    names fall together; an attribute named nonce is left out), and, for
    each name the custom attributes do not use, the built-in value, the
    optional ones only when their option is truthy.  The nonce option is in
    the element's slot, not among its attributes. *)
Definition carries (o : UseScriptTagOptions) (v : string) (el : NodeId) (d : Document) : Prop :=
  (∀ n u, NoDup (lowered_names o) → (n, u) ∈ attrs o → lowercase n ≠ "nonce" →
          getAttribute (lowercase n) el d = Some u) ∧
  ("src" ∉ lowered_names o → getAttribute "src" el d = Some v) ∧
  ("type" ∉ lowered_names o → getAttribute "type" el d = Some (type o)) ∧
  ("async" ∉ lowered_names o → hasAttribute "async" el d = async o) ∧
  ("defer" ∉ lowered_names o → hasAttribute "defer" el d = default false (defer o)) ∧
  ("nomodule" ∉ lowered_names o → hasAttribute "nomodule" el d = default false (noModule o)) ∧
  ("crossorigin" ∉ lowered_names o →
   getAttribute "crossorigin" el d = CrossOrigin_value <$> crossOrigin o) ∧
  ("referrerpolicy" ∉ lowered_names o →
   getAttribute "referrerpolicy" el d = ReferrerPolicy_value <$> referrerPolicy o) ∧
  ("nonce" ∉ lowered_names o →
   getAttribute "nonce" el d = None ∧ getNonce el d = Some (default "" (nonce o))).



(** The promise a listener settles. *)
Definition promise_of (h : Handler) : PromiseId :=
  match h with
  | reject_event p => p
  | loaded p _ => p
  end.

(** Listeners belong to promises that exist, and the listeners of one
    promise all sit on one element. *)
Definition separate (s : State) : Prop :=
  (∀ l, l ∈ listeners s → promise_of (l_handler l) < length (promises s)) ∧
  ∀ l1 l2, l1 ∈ listeners s → l2 ∈ listeners s →
           promise_of (l_handler l1) = promise_of (l_handler l2) →
           l_target l1 = l_target l2.


(** The loader has a well-formed document in which no two scripts share a
    src. *)
Definition tidy (s : State) : Prop :=
  ∃ d, document s = Some d ∧ well_formed d ∧ unique_scripts d.


End UseScriptTag.

(** ** useStyleTag *)

Module UseStyleTag.
Import Dom.

Record UseStyleTagOptions := {
  media : option string;
  immediate : option bool;
  manual : option bool;
  id : option string;
  nonce : option string }.

(** One call of the framework's [watch(cssRef, callback)]: the element the
    callback writes to, whether the watcher is still running, and the value
    it saw last. *)
Record Watcher := { w_el : NodeId; w_active : bool; w_oldValue : string }.

(** The cells one call of [useStyleTag] closes over.  [stop] is the watcher
    the variable [stop] would stop, [None] for the initial empty function. *)
Record State := {
  document : option Document;
  options : UseStyleTagOptions;
  the_id : string;
  cssRef : string;
  isLoaded : bool;
  stop : option nat;
  watchers : list Watcher }.

Definition set_document (v : option Document) (s : State) : State :=
  {| document := v; options := options s; the_id := the_id s; cssRef := cssRef s;
     isLoaded := isLoaded s; stop := stop s; watchers := watchers s |}.

Definition set_cssRef (v : string) (s : State) : State :=
  {| document := document s; options := options s; the_id := the_id s; cssRef := v;
     isLoaded := isLoaded s; stop := stop s; watchers := watchers s |}.

Definition set_isLoaded (v : bool) (s : State) : State :=
  {| document := document s; options := options s; the_id := the_id s; cssRef := cssRef s;
     isLoaded := v; stop := stop s; watchers := watchers s |}.

Definition set_stop (v : option nat) (s : State) : State :=
  {| document := document s; options := options s; the_id := the_id s; cssRef := cssRef s;
     isLoaded := isLoaded s; stop := v; watchers := watchers s |}.

Definition set_watchers (v : list Watcher) (s : State) : State :=
  {| document := document s; options := options s; the_id := the_id s; cssRef := cssRef s;
     isLoaded := isLoaded s; stop := stop s; watchers := v |}.

(** [++_id] on the module's counter, a JavaScript number that starts at 0:
    the sum is exact below 2^53; at 2^53 it rounds back to 2^53, so the
    counter stays there. *)
Definition increment (_id : N) : N :=
  if (_id <? 2 ^ 53)%N then (_id + 1)%N else _id.

(** The set-up part of [useStyleTag(css, options)]: [_id] is the module's
    counter, advanced only when the default id is used. *)
Definition useStyleTag (css : string) (o : UseStyleTagOptions) (d : option Document) (_id : N)
  : State * N :=
  let '(i, _id) := match id o with
                   | Some i => (i, _id)
                   | None => ("vueuse_styletag_" +:+ pretty (increment _id), increment _id)
                   end in
  ({| document := d; options := o; the_id := i; cssRef := css;
      isLoaded := false; stop := None; watchers := [] |}, _id).


Definition no_options : UseStyleTagOptions :=
  {| media := None; immediate := None; manual := None; id := None; nonce := None |}.

Definition truthy (v : option string) : bool :=
  match v with
  | Some v => bool_decide (v ≠ "")
  | None => false
  end.

(** The body of [if (!el.isConnected)] in [load]. *)
Definition set_up_style (s : State) (el : NodeId) (d : Document) : Document :=
  let d := setAttribute "id" (the_id s) el d in
  let d := if truthy (nonce (options s))
           then setNonce (default "" (nonce (options s))) el d
           else d in
  let d := if truthy (media (options s))
           then setAttribute "media" (default "" (media (options s))) el d
           else d in
  head_appendChild el d.

(** [load()]. *)
Definition load (s : State) : State :=
  match document s with
  | None => s
  | Some d =>
    let '(el, d) := match getElementById (the_id s) d with
                    | Some el => (el, d)
                    | None => createElement "style" d
                    end in
    let d := if negb (isConnected el d) then set_up_style s el d else d in
    let s := set_document (Some d) s in
    if isLoaded s then s
    else
      let w := length (watchers s) in
      let s := set_document (Some (setTextContent (cssRef s) el d)) s in
      let s := set_watchers
                 (watchers s ++ [ {| w_el := el; w_active := true; w_oldValue := cssRef s |} ]) s in
      let s := set_stop (Some w) s in
      set_isLoaded true s
  end.

(** Calling the function held in the variable [stop]. *)
Definition call_stop (s : State) : State :=
  match stop s with
  | Some w =>
    set_watchers
      (alter (λ x, {| w_el := w_el x; w_active := false; w_oldValue := w_oldValue x |})
             w (watchers s)) s
  | None => s
  end.

(** [unload()]. *)
Definition unload (s : State) : Completion * State :=
  match document s with
  | None => (returned, s)
  | Some d =>
    if negb (isLoaded s) then (returned, s)
    else
      let s := call_stop s in
      match getElementById (the_id s) d with
      | None => (threw TypeError, s)
      | Some el =>
        match head_removeChild el d with
        | None => (threw NotFoundError, s)
        | Some d => (returned, set_isLoaded false (set_document (Some d) s))
        end
      end
  end.

(** The job of one watcher at a flush: a running watcher whose source
    differs from the value it saw last calls back with the new value. *)
Definition run_watcher (v : string) (w : Watcher) (d : Document) : Watcher * Document :=
  if w_active w && bool_decide (w_oldValue w ≠ v)
  then ({| w_el := w_el w; w_active := true; w_oldValue := v |}, setTextContent v (w_el w) d)
  else (w, d).

Fixpoint run_watchers (v : string) (ws : list Watcher) (d : Document) : list Watcher * Document :=
  match ws with
  | [] => ([], d)
  | w :: ws =>
    let '(w, d) := run_watcher v w d in
    let '(ws, d) := run_watchers v ws d in
    (w :: ws, d)
  end.

(** The next reactive flush. *)
Definition flush (s : State) : State :=
  match document s with
  | None => s
  | Some d =>
    let '(ws, d) := run_watchers (cssRef s) (watchers s) d in
    set_watchers ws (set_document (Some d) s)
  end.

(** What can happen between [load()] and [unload()]: [load()] again, an
    assignment to [css.value], a flush. *)
Inductive Op :=
| Load
| SetCss (v : string)
| Flush.

Definition step (op : Op) (s : State) : State :=
  match op with
  | Load => load s
  | SetCss v => set_cssRef v s
  | Flush => flush s
  end.

Definition run (ops : list Op) (s : State) : State := foldl (λ s op, step op s) s ops.

Definition content (el : NodeId) (s : State) : option string :=
  d ← document s; getTextContent el d.

Definition connected (el : NodeId) (s : State) : bool :=
  match document s with
  | Some d => isConnected el d
  | None => false
  end.

Definition running (w : nat) (s : State) : bool :=
  match watchers s !! w with
  | Some x => w_active x
  | None => false
  end.

(** No watcher is running: the state of the watchers after set-up and after
    every completed [unload]. *)
Definition idle (s : State) : Prop := Forall (λ x, w_active x = false) (watchers s).

(** The loader is loaded on element [el] with watcher [w]: the element is
    the child of head that carries the id, [w] is the watcher [stop] would
    stop and the only one running, and the element shows the value the
    watcher saw last. *)
Definition bound (el w : nat) (s : State) : Prop :=
  isLoaded s = true ∧ stop s = Some w ∧
  (∃ d, document s = Some d ∧ well_formed d ∧
        getElementById (the_id s) d = Some el ∧ el ∈ head d) ∧
  (∃ x, watchers s !! w = Some x ∧ w_el x = el ∧ w_active x = true ∧
        content el s = Some (w_oldValue x)) ∧
  (∀ i x, watchers s !! i = Some x → w_active x = true → i = w).

(** The lifecycle hooks registered at the end of [useStyleTag]. *)
Definition loads_on_mount (o : UseStyleTagOptions) : bool :=
  default true (immediate o) && negb (default false (manual o)).

Definition unloads_on_dispose (o : UseStyleTagOptions) : bool :=
  negb (default false (manual o)).

(** A sample: the loader for [body{}] on the empty document. *)
Definition sample_document : Document := {| nodes := []; head := []; elsewhere := [] |}.

Definition sample : State :=
  (useStyleTag "body{}"
     {| media := None; immediate := None; manual := None; id := None; nonce := None |}
     (Some sample_document) 0%N).1.

(** The document of [s] is [d] with one more element, [el], appended to
    head; the ids of the other elements are as in [d]. *)
Definition grown (d : Document) (el : NodeId) (s : State) : Prop :=
  ∃ d', document s = Some d' ∧ head d' = head d ++ [el] ∧ elsewhere d' = elsewhere d ∧
        length (nodes d') = S (length (nodes d)) ∧
        ∀ x, x ≠ el → getAttribute "id" x d' = getAttribute "id" x d.

(** The loader counts as loaded on the unchanged document [d] while no
    watcher runs: the state an [unload] that threw leaves behind. *)
Definition stuck (d : Document) (s : State) : Prop :=
  document s = Some d ∧ isLoaded s = true ∧ idle s.

(** A sample: a style element with id [theme] in the body. *)
Definition style_in_body : Document :=
  {| nodes := [ {| localName := "style"; attributes := {[ "id" := "theme" ]};
                   textContent := ""; cryptographicNonce := "" |} ];
     head := []; elsewhere := [0] |}.

Definition theme : State :=
  (useStyleTag "a{}"
     {| media := Some "print"; immediate := None; manual := None; id := Some "theme";
        nonce := Some "" |}
     (Some style_in_body) 0%N).1.

(** A sample: the loader whose id option is the empty string. *)
Definition unnamed : State :=
  (useStyleTag "a{}"
     {| media := None; immediate := None; manual := None; id := Some ""; nonce := None |}
     (Some sample_document) 0%N).1.

Definition theme_fresh : State :=
  (useStyleTag "a{}"
     {| media := Some "print"; immediate := None; manual := None; id := Some "theme";
        nonce := Some "abc" |}
     (Some sample_document) 0%N).1.


End UseStyleTag.

(** ** The v-on-click-outside directive *)

Module Directive.
Import Dom.

Inductive JsValue := js_undefined | js_bool (b : bool) | js_object (ref : nat).

(** An options object: its own enumerable properties. *)
Definition JsObject := gmap string JsValue.

(** [Object.assign(target, source)]: every own property of [source] is
    written over [target]. *)
Definition Object_assign (target source : gmap string JsValue) : gmap string JsValue :=
  source ∪ target.

Abbreviation HandlerRef := nat (only parsing).

(** [binding.value]: a function, or a pair of a function and options. *)
Inductive BindingValue :=
| function_value (handler : HandlerRef)
| array_value (handler : HandlerRef) (options : gmap string JsValue).

Record DirectiveBinding := {
  modifiers : gmap string bool;
  value : BindingValue }.

Record Registration := {
  r_target : NodeId;
  r_handler : HandlerRef;
  r_options : gmap string JsValue;
  r_active : bool }.

(** The outside-click registrations made so far, the property
    [__onClickOutside_stop] of each element (the registration its function
    cancels), and the cancellation functions called so far. *)
Record State := {
  registrations : list Registration;
  __onClickOutside_stop : gmap NodeId nat;
  stop_calls : list nat }.

(** Modelled from the spec: [onClickOutside] of
    [packages/core/onClickOutside/index.ts], the "existing outside-click
    detection primitive": it registers the handler for the target with the
    options it is given and returns the function that cancels this
    registration. *)
Definition onClickOutside (target : NodeId) (handler : HandlerRef) (options : gmap string JsValue)
  (s : State) : nat * State :=
  (length (registrations s),
   {| registrations := registrations s ++
        [ {| r_target := target; r_handler := handler; r_options := options; r_active := true |} ];
      __onClickOutside_stop := __onClickOutside_stop s;
      stop_calls := stop_calls s |}).

(** Modelled from the spec: calling the cancellation function that
    [onClickOutside] returned for registration [r]. *)
Definition cancel (r : nat) (s : State) : State :=
  {| registrations :=
       alter (λ x, {| r_target := r_target x; r_handler := r_handler x;
                      r_options := r_options x; r_active := false |}) r (registrations s);
     __onClickOutside_stop := __onClickOutside_stop s;
     stop_calls := stop_calls s ++ [r] |}.

Definition store_stop (el : NodeId) (r : nat) (s : State) : State :=
  {| registrations := registrations s;
     __onClickOutside_stop := <[el := r]> (__onClickOutside_stop s);
     stop_calls := stop_calls s |}.

(** [!binding.modifiers.bubble] *)
Definition not_bubble (binding : DirectiveBinding) : bool :=
  negb (default false (modifiers binding !! "bubble")).

(** [vOnClickOutside.mounted(el, binding)]. *)
Definition mounted (el : NodeId) (binding : DirectiveBinding) (s : State) : State :=
  let capture := not_bubble binding in
  match value binding with
  | function_value handler =>
    let '(r, s) := onClickOutside el handler {[ "capture" := js_bool capture ]} s in
    store_stop el r s
  | array_value handler options =>
    let '(r, s) :=
      onClickOutside el handler (Object_assign {[ "capture" := js_bool capture ]} options) s in
    store_stop el r s
  end.

(** [vOnClickOutside.unmounted(el)]: calling a missing property throws. *)
Definition unmounted (el : NodeId) (s : State) : Completion * State :=
  match __onClickOutside_stop s !! el with
  | Some r => (returned, cancel r s)
  | None => (threw TypeError, s)
  end.

Definition initial : State :=
  {| registrations := []; __onClickOutside_stop := ∅; stop_calls := [] |}.

Definition handler_of (v : BindingValue) : HandlerRef :=
  match v with
  | function_value h => h
  | array_value h _ => h
  end.

(** The [capture] property of the options a registration was made with. *)
Definition capture_of (r : nat) (s : State) : option JsValue :=
  reg ← registrations s !! r; r_options reg !! "capture".

(** A sample binding: no modifier, [[handler, { capture: false }]]. *)
Definition plain_with_capture_off : DirectiveBinding :=
  {| modifiers := ∅; value := array_value 0 {[ "capture" := js_bool false ]} |}.

(** A sample binding: the bubble modifier, a bare handler. *)
Definition bubble_function : DirectiveBinding :=
  {| modifiers := {[ "bubble" := true ]}; value := function_value 0 |}.


(** [unmounted(el)] called [n] times in a row, exceptions ignored. *)
Fixpoint unmount_times (n : nat) (el : NodeId) (s : State) : State :=
  match n with
  | 0 => s
  | S n => unmount_times n el (unmounted el s).2
  end.

(** The directive mounted on each of the elements of [ms] in turn. *)
Definition mount_all (ms : list (NodeId * DirectiveBinding)) (s : State) : State :=
  foldl (λ s m, mounted m.1 m.2 s) s ms.

(** A sample binding: a handler with [ignore] and [detectIframe] options. *)
Definition with_ignore : DirectiveBinding :=
  {| modifiers := ∅;
     value := array_value 3 {[ "ignore" := js_object 9; "detectIframe" := js_bool true ]} |}.


End Directive.

(** * Properties *)

Module DomFacts.
Import Dom.

Lemma touches_refl el d : touches el d d.
Proof. by repeat split. Qed.

Lemma touches_trans el d1 d2 d3 : touches el d1 d2 → touches el d2 d3 → touches el d1 d3.
Proof.
  intros (Hl1 & Hh1 & He1 & Ho1 & Hn1) (Hl2 & Hh2 & He2 & Ho2 & Hn2).
  repeat split; try congruence.
  intros i Hi. rewrite Ho2, Ho1; auto.
Qed.

Lemma touches_alter el d f :
  (∀ e, localName (f e) = localName e) →
  touches el d (set_nodes (alter f el (nodes d)) d).
Proof.
  intros Hf. unfold touches, set_nodes. cbn [nodes head elsewhere]. repeat split.
  - apply length_alter.
  - intros i Hi. apply list_lookup_alter_ne. congruence.
  - rewrite list_lookup_alter_eq. destruct (nodes d !! el); simpl; [f_equal; apply Hf|done].
Qed.

Lemma touches_setAttribute n v el d : touches el d (setAttribute n v el d).
Proof. by apply touches_alter. Qed.

Lemma touches_removeAttribute n el d : touches el d (removeAttribute n el d).
Proof. by apply touches_alter. Qed.

Lemma touches_setBoolean n b el d : touches el d (setBoolean n b el d).
Proof. destruct b; [apply touches_setAttribute | apply touches_removeAttribute]. Qed.

Lemma touches_setTextContent v el d : touches el d (setTextContent v el d).
Proof. by apply touches_alter. Qed.

Lemma touches_setNonce v el d : touches el d (setNonce v el d).
Proof. by apply touches_alter. Qed.

Lemma touches_setAttributes el (l : list (string * string)) d :
  touches el d (foldl (λ d nv, Element_setAttribute nv.1 nv.2 el d) d l).
Proof.
  revert d. induction l as [|nv l IH]; intros d; simpl; [apply touches_refl|].
  eapply touches_trans; [apply touches_setAttribute | apply IH].
Qed.

Lemma getAttribute_setAttribute_eq n v el d :
  el < length (nodes d) → getAttribute n el (setAttribute n v el d) = Some v.
Proof.
  intros Hlt. unfold getAttribute, setAttribute, set_nodes. cbn [nodes].
  rewrite list_lookup_alter_eq. destruct (lookup_lt_is_Some_2 _ _ Hlt) as [e ->].
  cbn. apply lookup_insert_eq.
Qed.

Lemma getAttribute_setAttribute_ne n m v x el d :
  n ≠ m ∨ x ≠ el → getAttribute n x (setAttribute m v el d) = getAttribute n x d.
Proof.
  intros Hne. unfold getAttribute, setAttribute, set_nodes. cbn [nodes].
  destruct (decide (x = el)) as [->|Hx].
  - rewrite list_lookup_alter_eq. destruct (nodes d !! el) as [e|]; [|done].
    cbn. apply lookup_insert_ne. destruct Hne; congruence.
  - rewrite list_lookup_alter_ne by congruence. done.
Qed.

Lemma getAttribute_setTextContent n x v el d :
  getAttribute n x (setTextContent v el d) = getAttribute n x d.
Proof.
  unfold getAttribute, setTextContent, set_nodes. cbn [nodes].
  destruct (decide (x = el)) as [->|Hx].
  - rewrite list_lookup_alter_eq. by destruct (nodes d !! el).
  - by rewrite list_lookup_alter_ne by congruence.
Qed.

Lemma getElementById_setTextContent i v el d :
  getElementById i (setTextContent v el d) = getElementById i d.
Proof.
  unfold getElementById. case_bool_decide; [done|].
  change (tree (setTextContent v el d)) with (tree d).
  induction (tree d) as [|x l IH]; [done|]. cbn.
  unfold has_id at 1 3. rewrite getAttribute_setTextContent.
  by destruct (bool_decide _).
Qed.

Lemma getNonce_setTextContent x v el d :
  getNonce x (setTextContent v el d) = getNonce x d.
Proof.
  unfold getNonce, setTextContent, set_nodes. cbn [nodes].
  destruct (decide (x = el)) as [->|Hx].
  - rewrite list_lookup_alter_eq. by destruct (nodes d !! el).
  - by rewrite list_lookup_alter_ne by congruence.
Qed.

Lemma getTextContent_setTextContent_eq v el d :
  el < length (nodes d) → getTextContent el (setTextContent v el d) = Some v.
Proof.
  intros Hlt. unfold getTextContent, setTextContent, set_nodes. cbn [nodes].
  rewrite list_lookup_alter_eq. by destruct (lookup_lt_is_Some_2 _ _ Hlt) as [e ->].
Qed.

Lemma getTextContent_setTextContent_ne v x el d :
  x ≠ el → getTextContent x (setTextContent v el d) = getTextContent x d.
Proof.
  intros Hne. unfold getTextContent, setTextContent, set_nodes. cbn [nodes].
  by rewrite list_lookup_alter_ne by congruence.
Qed.

Lemma without_absent el (l : list nat) : el ∉ l → without el l = l.
Proof.
  intros Hel. unfold without. induction l as [|x l IH]; [done|].
  apply not_elem_of_cons in Hel as [Hx Hl].
  rewrite filter_cons_True by congruence. by rewrite IH.
Qed.

Lemma not_elem_of_without el (l : list nat) : el ∉ without el l.
Proof. unfold without. intros H. apply list_elem_of_filter in H as [H _]. done. Qed.

Lemma find_first {A} (f : A → bool) l1 x l2 :
  Forall (λ y, f y = false) l1 → f x = true → List.find f (l1 ++ x :: l2) = Some x.
Proof.
  intros Hl Hx. induction Hl as [|y l Hy Hl IH]; cbn.
  - by rewrite Hx.
  - by rewrite Hy.
Qed.

Lemma find_none_Forall {A} (f : A → bool) l :
  List.find f l = None → Forall (λ y, f y = false) l.
Proof.
  intros H. apply Forall_forall. intros y Hy.
  apply (find_none f l H). by apply list_elem_of_In.
Qed.

Lemma find_filter {A} (f : A → bool) (l : list A) :
  List.find f l = hd_error (List.filter f l).
Proof. induction l as [|x l IH]; [done|]. cbn. by destruct (f x). Qed.

Lemma filter_none {A} (f : A → bool) (l : list A) :
  (∀ x, x ∈ l → f x = false) → List.filter f l = [].
Proof.
  induction l as [|x l IH]; intros H; [done|]. cbn.
  rewrite (H x) by left. apply IH. intros y Hy. apply H. by right.
Qed.

Lemma len_setAttribute n v el d : length (nodes (setAttribute n v el d)) = length (nodes d).
Proof. apply length_alter. Qed.

Lemma len_removeAttribute n el d : length (nodes (removeAttribute n el d)) = length (nodes d).
Proof. apply length_alter. Qed.

Lemma len_setBoolean n b el d : length (nodes (setBoolean n b el d)) = length (nodes d).
Proof. destruct b; [apply len_setAttribute | apply len_removeAttribute]. Qed.

Lemma getAttribute_removeAttribute_eq n el d : getAttribute n el (removeAttribute n el d) = None.
Proof.
  unfold getAttribute, removeAttribute, set_nodes. cbn [nodes].
  rewrite list_lookup_alter_eq. destruct (nodes d !! el); [|done].
  cbn. apply lookup_delete_eq.
Qed.

Lemma getAttribute_removeAttribute_ne n m x el d :
  n ≠ m → getAttribute n x (removeAttribute m el d) = getAttribute n x d.
Proof.
  intros Hne. unfold getAttribute, removeAttribute, set_nodes. cbn [nodes].
  destruct (decide (x = el)) as [->|Hx].
  - rewrite list_lookup_alter_eq. destruct (nodes d !! el) as [e|]; [|done].
    cbn. by apply lookup_delete_ne.
  - by rewrite list_lookup_alter_ne by congruence.
Qed.

Lemma getAttribute_setBoolean_ne n m b x el d :
  n ≠ m → getAttribute n x (setBoolean m b el d) = getAttribute n x d.
Proof.
  intros Hne. destruct b; cbn.
  - apply getAttribute_setAttribute_ne. by left.
  - by apply getAttribute_removeAttribute_ne.
Qed.

Lemma getAttribute_createElement n tag d :
  getAttribute n (length (nodes d)) (createElement tag d).2 = None.
Proof.
  unfold getAttribute, createElement. cbn.
  by rewrite lookup_app_r, Nat.sub_diag by lia.
Qed.

Lemma len_setNonce v el d : length (nodes (setNonce v el d)) = length (nodes d).
Proof. apply length_alter. Qed.

Lemma getAttribute_setNonce n x v el d :
  getAttribute n x (setNonce v el d) = getAttribute n x d.
Proof.
  unfold getAttribute, setNonce, set_nodes. cbn [nodes].
  destruct (decide (x = el)) as [->|Hx].
  - rewrite list_lookup_alter_eq. by destruct (nodes d !! el).
  - by rewrite list_lookup_alter_ne by congruence.
Qed.

Lemma getNonce_setNonce v el d :
  el < length (nodes d) → getNonce el (setNonce v el d) = Some v.
Proof.
  intros Hlt. unfold getNonce, setNonce, set_nodes. cbn [nodes].
  rewrite list_lookup_alter_eq. by destruct (lookup_lt_is_Some_2 _ _ Hlt) as [e ->].
Qed.

Lemma getNonce_setAttribute n v x el d :
  n ≠ "nonce" → getNonce x (setAttribute n v el d) = getNonce x d.
Proof.
  intros Hn. unfold getNonce, setAttribute, set_nodes. cbn [nodes].
  destruct (decide (x = el)) as [->|Hx].
  - rewrite list_lookup_alter_eq. destruct (nodes d !! el); [|done]. cbn.
    by rewrite bool_decide_eq_false_2.
  - by rewrite list_lookup_alter_ne by congruence.
Qed.

Lemma getNonce_removeAttribute n x el d :
  n ≠ "nonce" → getNonce x (removeAttribute n el d) = getNonce x d.
Proof.
  intros Hn. unfold getNonce, removeAttribute, set_nodes. cbn [nodes].
  destruct (decide (x = el)) as [->|Hx].
  - rewrite list_lookup_alter_eq. destruct (nodes d !! el); [|done]. cbn.
    by rewrite bool_decide_eq_false_2.
  - by rewrite list_lookup_alter_ne by congruence.
Qed.

Lemma getNonce_setBoolean n b x el d :
  n ≠ "nonce" → getNonce x (setBoolean n b el d) = getNonce x d.
Proof.
  intros Hn. destruct b; [by apply getNonce_setAttribute | by apply getNonce_removeAttribute].
Qed.

Lemma getNonce_createElement tag d :
  getNonce (length (nodes d)) (createElement tag d).2 = Some "".
Proof.
  unfold getNonce, createElement. cbn.
  by rewrite lookup_app_r, Nat.sub_diag by lia.
Qed.

Lemma getAttribute_setAttributes_notin n x el (l : list (string * string)) d :
  n ∉ lowercase <$> l.*1 →
  getAttribute n x (foldl (λ d nv, Element_setAttribute nv.1 nv.2 el d) d l) = getAttribute n x d.
Proof.
  revert d. induction l as [|[m v] l IH]; intros d Hn; [done|].
  cbn in Hn. apply not_elem_of_cons in Hn as [Hne Hn].
  cbn [foldl]. rewrite IH by done. apply getAttribute_setAttribute_ne. by left.
Qed.

Lemma getNonce_setAttributes x el (l : list (string * string)) d :
  "nonce" ∉ lowercase <$> l.*1 →
  getNonce x (foldl (λ d nv, Element_setAttribute nv.1 nv.2 el d) d l) = getNonce x d.
Proof.
  revert d. induction l as [|[m v] l IH]; intros d Hn; [done|].
  cbn in Hn. apply not_elem_of_cons in Hn as [Hne Hn].
  cbn [foldl]. rewrite IH by done. apply getNonce_setAttribute.
  intros E. apply Hne. by rewrite <- E.
Qed.

Lemma len_setAttributes el (l : list (string * string)) d :
  length (nodes (foldl (λ d nv, Element_setAttribute nv.1 nv.2 el d) d l)) = length (nodes d).
Proof. by destruct (touches_setAttributes el l d) as (-> & _). Qed.

Lemma getAttribute_setAttributes_in n v el (l : list (string * string)) d :
  NoDup (lowercase <$> l.*1) → (n, v) ∈ l → el < length (nodes d) →
  getAttribute (lowercase n) el (foldl (λ d nv, Element_setAttribute nv.1 nv.2 el d) d l) = Some v.
Proof.
  revert d. induction l as [|[m u] l IH]; intros d Hnd Hin Hlt.
  - by apply elem_of_nil in Hin.
  - cbn in Hnd. apply NoDup_cons in Hnd as [Hm Hnd]. cbn [foldl].
    apply elem_of_cons in Hin as [[= -> ->]|Hin].
    + rewrite getAttribute_setAttributes_notin by done.
      by apply getAttribute_setAttribute_eq.
    + apply IH; [done|done|]. unfold Element_setAttribute. by rewrite len_setAttribute.
Qed.

End DomFacts.

Module ScriptTagFacts.
Import Dom Promise UseScriptTag DomFacts.

Lemma settle_length p r st : length (settle p r st) = length st.
Proof.
  unfold settle. destruct (st !! p) as [[]|]; auto using length_insert.
Qed.

Lemma settle_other p q r st : q ≠ p → settle p r st !! q = st !! q.
Proof.
  intros Hne. unfold settle. destruct (st !! p) as [[]|]; auto.
  by apply list_lookup_insert_ne.
Qed.

Lemma settle_pending p r st : st !! p = Some Pending → settle p r st !! p = Some r.
Proof.
  intros Hp. unfold settle. rewrite Hp.
  apply list_lookup_insert_eq. by eapply lookup_lt_Some.
Qed.

Lemma settle_settled p r st x : st !! p = Some x → x ≠ Pending → settle p r st = st.
Proof.
  intros Hp Hx. unfold settle. rewrite Hp. by destruct x.
Qed.

Lemma settle_keeps p q r st x :
  st !! q = Some x → x ≠ Pending → settle p r st !! q = Some x.
Proof.
  intros Hq Hx. destruct (decide (q = p)) as [->|Hne].
  - by rewrite (settle_settled _ _ _ x).
  - by rewrite settle_other.
Qed.

Lemma settle_fresh r (st : list Settlement) :
  settle (length st) r (st ++ [Pending]) = st ++ [r].
Proof.
  unfold settle. rewrite lookup_app_r, Nat.sub_diag by lia. simpl.
  rewrite insert_app_r_alt, Nat.sub_diag by lia. done.
Qed.

Lemma settle_last_settled r x (st : list Settlement) :
  x ≠ Pending → settle (length st) r (st ++ [x]) = st ++ [x].
Proof.
  intros Hx. apply (settle_settled _ _ _ x); [|done].
  by rewrite lookup_app_r, Nat.sub_diag by lia.
Qed.

Lemma prepare_script_el o v d : (prepare_script o v d).1 = length (nodes d).
Proof.
  unfold prepare_script, createElement. done.
Qed.

Lemma touches_when el b f d :
  (∀ d, touches el d (f d)) → touches el d (when b f d).
Proof. intros Hf. destruct b; [apply Hf | apply touches_refl]. Qed.

Lemma prepare_script_touches o v d :
  touches (length (nodes d)) (createElement "script" d).2 (prepare_script o v d).2.
Proof.
  unfold prepare_script, createElement. cbn [fst snd].
  eapply touches_trans; [|apply touches_setAttributes].
  eapply touches_trans;
    [|destruct (nonce o);
      [apply touches_when; intros; apply touches_setNonce | apply touches_refl]].
  eapply touches_trans;
    [|destruct (referrerPolicy o); [apply touches_setAttribute | apply touches_refl]].
  eapply touches_trans; [|apply touches_when; intros; apply touches_setBoolean].
  eapply touches_trans;
    [|destruct (crossOrigin o); [apply touches_setAttribute | apply touches_refl]].
  eapply touches_trans; [|apply touches_when; intros; apply touches_setBoolean].
  eapply touches_trans; [|apply touches_setAttribute].
  eapply touches_trans; [|apply touches_setBoolean].
  apply touches_setAttribute.
Qed.

(** Memoising the promise touches no other cell. *)
Ltac past_memo :=
  repeat first
    [ progress change (document (set__promise ?x ?y)) with (document y)
    | progress change (scriptTag (set__promise ?x ?y)) with (scriptTag y)
    | progress change (onLoaded_calls (set__promise ?x ?y)) with (onLoaded_calls y)
    | progress change (promises (set__promise ?x ?y)) with (promises y)
    | progress change (outcome ?p (set__promise ?x ?y)) with (outcome p y) ].

Section Loader.
Variable o : UseScriptTagOptions.

(** Everything [loadScript] does, branch by branch. *)
Lemma loadScript_cases w s :
  let p := length (promises s) in
  let r := loadScript o w s in
  r.1 = p ∧ _promise r.2 = _promise s ∧ src r.2 = src s ∧
  onLoaded_calls r.2 = onLoaded_calls s ∧
  match document s with
  | None =>
    document r.2 = None ∧ promises r.2 = promises s ++ [Fulfilled VFalse] ∧
    scriptTag r.2 = scriptTag s ∧ listeners r.2 = listeners s
  | Some d =>
    match querySelector_script_src (src s) d with
    | None =>
      let el := length (nodes d) in
      document r.2 = Some (head_appendChild el (prepare_script o (src s) d).2) ∧
      promises r.2 = promises s ++ [if w then Pending else Fulfilled (VElement el)] ∧
      scriptTag r.2 = (if w then scriptTag s else Some el) ∧
      listeners r.2 = listeners s ++ attached p el
    | Some el =>
      let ready := hasAttribute "data-loaded" el d || negb w in
      document r.2 = Some d ∧
      promises r.2 = promises s ++ [if ready then Fulfilled (VElement el) else Pending] ∧
      scriptTag r.2 = (if ready then Some el else scriptTag s) ∧
      listeners r.2 = listeners s ++ attached p el
    end
  end.
Proof.
  destruct s as [doc v tag memo ps ls calls]. unfold loadScript. cbn.
  destruct doc as [d|]; cbn.
  - destruct (querySelector_script_src v d) as [el|] eqn:Hq; cbn.
    + destruct (hasAttribute "data-loaded" el d), w; cbn;
        unfold resolve; rewrite ?settle_fresh, ?settle_last_settled by done;
        rewrite <- ?app_assoc; done.
    + pose proof (prepare_script_el o v d) as Hel.
      destruct (prepare_script o v d) as [el d'] eqn:Hp. cbn in Hel. subst el.
      destruct w; cbn; unfold resolve; rewrite ?settle_fresh, <- ?app_assoc; done.
  - unfold resolve. by rewrite settle_fresh.
Qed.

Lemma load_memoised w s p : _promise s = Some p → load o w s = (p, s).
Proof. intros Hp. unfold load. by rewrite Hp. Qed.

Lemma load_starts w s :
  _promise s = None →
  load o w s = ((loadScript o w s).1, set__promise (Some (loadScript o w s).1) (loadScript o w s).2).
Proof. intros Hp. unfold load. rewrite Hp. by destruct (loadScript o w s). Qed.

Lemma load_memo w s : _promise (load o w s).2 = Some (load o w s).1.
Proof.
  destruct (_promise s) as [p|] eqn:Hp.
  - by rewrite (load_memoised _ _ p).
  - by rewrite load_starts.
Qed.

Lemma loads_memoised ws s p :
  _promise s = Some p → loads o ws s = (replicate (length ws) p, s).
Proof.
  intros Hp. induction ws as [|w ws IH]; [done|].
  cbn [loads]. rewrite (load_memoised _ _ p), IH; done.
Qed.

Lemma loads_first w ws s :
  loads o (w :: ws) s = (replicate (S (length ws)) (load o w s).1, (load o w s).2).
Proof.
  cbn [loads]. pose proof (load_memo w s) as Hm.
  destruct (load o w s) as [p s1]. cbn in *. by rewrite (loads_memoised _ _ p).
Qed.

Lemma created_set__promise v s : created (set__promise v s) = created s.
Proof. done. Qed.

Lemma prepare_script_nodes v d :
  length (nodes (prepare_script o v d).2) = S (length (nodes d)).
Proof.
  destruct (prepare_script_touches o v d) as (Hl & _). rewrite Hl.
  unfold createElement. cbn. rewrite length_app. cbn. lia.
Qed.

Lemma loadScript_created w s :
  created (loadScript o w s).2 = if builds s then S (created s) else created s.
Proof.
  pose proof (loadScript_cases w s) as H. cbn zeta in H.
  destruct H as (_ & _ & _ & _ & H). unfold created, builds.
  destruct (document s) as [d|].
  - destruct (querySelector_script_src (src s) d) as [el|].
    + destruct H as (-> & _). done.
    + destruct H as (-> & _). unfold head_appendChild. cbn [nodes].
      by rewrite prepare_script_nodes.
  - by destruct H as (-> & _).
Qed.

Lemma load_created w s :
  created (load o w s).2 =
  if bool_decide (_promise s = None) && builds s then S (created s) else created s.
Proof.
  destruct (_promise s) as [p|] eqn:Hp.
  - by rewrite (load_memoised _ _ p).
  - rewrite load_starts by done. cbn [snd]. rewrite created_set__promise.
    apply loadScript_created.
Qed.

Lemma run_handler_memo ev h s : _promise (run_handler ev h s) = _promise s.
Proof. by destruct h. Qed.

Lemma dispatchEvent_memo ev s : _promise (dispatchEvent ev s) = _promise s.
Proof.
  unfold dispatchEvent. generalize (List.filter (listens_to ev) (listeners s)).
  intros l. revert s. induction l as [|x l IH]; intros s; [done|].
  cbn [foldl]. by rewrite IH, run_handler_memo.
Qed.

Lemma step_keeps_memo op s p :
  op ≠ Unload → _promise s = Some p → _promise (step o op s) = Some p.
Proof.
  intros Hop Hp. destruct op as [w| |ev|v]; cbn [step].
  - by rewrite (load_memoised _ _ p).
  - done.
  - by rewrite dispatchEvent_memo.
  - done.
Qed.

Lemma run_keeps_memo t s p :
  Unload ∉ t → _promise s = Some p → _promise (run o t s) = Some p.
Proof.
  revert s. induction t as [|op t IH]; intros s Ht Hp; [done|].
  apply not_elem_of_cons in Ht as [Hop Ht].
  unfold run. cbn [foldl]. apply IH; [done|]. by apply step_keeps_memo.
Qed.

(** C1, as amended.  However many times [load] is called in a row, every
    call returns the promise of the first one, and at most one script
    element is created.  For a src that is [selector_safe] the number is
    known: exactly one if the first call starts a load (nothing memoised)
    in a document that holds no script with this src, and none otherwise.
    Whatever happens next, the callers observe one and the same outcome. *)
Theorem load_calls_share_one_promise w ws s :
  let r := loads o (w :: ws) s in
  ∃ p,
    r.1 = replicate (S (length ws)) p ∧
    _promise r.2 = Some p ∧
    created s ≤ created r.2 ≤ S (created s) ∧
    (selector_safe (src s) = true →
     created r.2 =
       (if bool_decide (_promise s = None) && builds s then S (created s) else created s)) ∧
    ∀ t q q', q ∈ r.1 → q' ∈ r.1 → outcome q (run o t r.2) = outcome q' (run o t r.2).
Proof.
  cbn zeta. rewrite loads_first. cbn [fst snd].
  exists (load o w s).1. split; [done|]. split; [apply load_memo|].
  split; [rewrite load_created; destruct (_ && _); lia|].
  split; [intros _; apply load_created|].
  intros t q q' Hq Hq'.
  apply elem_of_replicate in Hq as [-> _]. apply elem_of_replicate in Hq' as [-> _]. done.
Qed.

(** C10.  After a call of [load], every later call returns the promise of
    that call and changes nothing, whatever its argument and whatever
    happened in between (further calls, events that settle the promise, a
    change of src), so long as [unload] was not called. *)
Theorem load_returns_first_promise_until_unload w1 w2 t s :
  Unload ∉ t →
  load o w2 (run o t (load o w1 s).2) = ((load o w1 s).1, run o t (load o w1 s).2).
Proof.
  intros Ht. apply load_memoised. apply run_keeps_memo; [done|]. apply load_memo.
Qed.

(** C4, as amended.  With a document, [unload] always clears the memoised
    promise; without one it changes nothing.  No other operation clears it,
    and once it is cleared the next [load] builds a new promise. *)
Theorem memo_cleared_by_unload_with_document s :
  (is_Some (document s) → _promise (unload s).2 = None) ∧
  (document s = None → unload s = (returned, s)) ∧
  (∀ op p, op ≠ Unload → _promise s = Some p → _promise (step o op s) = Some p) ∧
  (∀ w, _promise s = None →
        (load o w s).1 = length (promises s) ∧
        _promise (load o w s).2 = Some (length (promises s)) ∧
        length (promises (load o w s).2) = S (length (promises s))).
Proof.
  split; [|split; [|split]].
  - intros [d Hd]. unfold unload. rewrite Hd.
    destruct s as [doc v tag memo ps ls calls]. cbn.
    destruct tag; cbn; destruct (querySelector_script_src v d) as [el|]; cbn; try done;
      destruct (head_removeChild el d); done.
  - intros Hd. unfold unload. by rewrite Hd.
  - intros op p. apply step_keeps_memo.
  - intros w Hp. rewrite load_starts by done. cbn [fst snd].
    pose proof (loadScript_cases w s) as H. cbn zeta in H.
    destruct H as (H1 & _ & _ & _ & H). split; [done|]. split; [by rewrite H1|].
    past_memo.
    destruct (document s) as [d|].
    + destruct (querySelector_script_src (src s) d);
        destruct H as (_ & -> & _); rewrite length_app; cbn; lia.
    + destruct H as (_ & -> & _). rewrite length_app; cbn; lia.
Qed.

Lemma querySelector_connected v d el :
  querySelector_script_src v d = Some el → isConnected el d = true.
Proof.
  unfold querySelector_script_src, isConnected. intros H.
  apply find_some in H as [H _]. apply bool_decide_eq_true. by apply list_elem_of_In.
Qed.

Lemma head_appendChild_connected el d : isConnected el (head_appendChild el d) = true.
Proof.
  unfold isConnected, tree, head_appendChild. cbn [head elsewhere].
  apply bool_decide_eq_true. set_solver.
Qed.

Lemma outcome_last (s : State) ps x :
  promises s = ps ++ [x] → outcome (length ps) s = Some x.
Proof.
  unfold outcome. intros ->. by rewrite lookup_app_r, Nat.sub_diag by lia.
Qed.

(** C5, as amended.  With a document, a src that is [selector_safe] and
    custom attributes with plain names, a call of [load(false)] that starts
    the load (none is memoised) returns a promise that is already fulfilled
    with the script element, and that element is in the document; no load
    event was dispatched and [onLoaded] has not run. *)
Theorem load_without_waiting_is_fulfilled s d :
  document s = Some d → _promise s = None →
  selector_safe (src s) = true → forallb plain_name (attr_names o) = true →
  ∃ el,
    outcome (load o false s).1 (load o false s).2 = Some (Fulfilled (VElement el)) ∧
    connected el (load o false s).2 = true ∧
    scriptTag (load o false s).2 = Some el ∧
    onLoaded_calls (load o false s).2 = onLoaded_calls s.
Proof.
  intros Hd Hp _ _. rewrite load_starts by done. cbn [fst snd].
  pose proof (loadScript_cases false s) as H. cbn zeta in H.
  destruct H as (H1 & _ & _ & Hc & H). rewrite Hd in H. rewrite H1.
  unfold connected.
  past_memo.
  destruct (querySelector_script_src (src s) d) as [el|] eqn:Hq.
  - destruct H as (Hdoc & Hps & Htag & _). exists el.
    rewrite orb_true_r in Hps, Htag. rewrite Hdoc, Htag.
    repeat split; [by apply outcome_last | by eapply querySelector_connected | done].
  - destruct H as (Hdoc & Hps & Htag & _). exists (length (nodes d)).
    rewrite Hdoc, Htag.
    repeat split; [by apply outcome_last | apply head_appendChild_connected | done].
Qed.

(** C6, as amended.  With nothing memoised and a src that is
    [selector_safe], if the script element the lookup by src finds (the
    first one with this src in document order) carries [data-loaded], [load]
    returns a promise already fulfilled with that element; the document is
    left as it was, so nothing is created or appended. *)
Theorem load_reuses_ready_script w s d el :
  document s = Some d → _promise s = None → selector_safe (src s) = true →
  querySelector_script_src (src s) d = Some el →
  hasAttribute "data-loaded" el d = true →
  outcome (load o w s).1 (load o w s).2 = Some (Fulfilled (VElement el)) ∧
  document (load o w s).2 = Some d ∧
  created (load o w s).2 = created s ∧
  scriptTag (load o w s).2 = Some el.
Proof.
  intros Hd Hp _ Hq Hready. rewrite load_starts by done. cbn [fst snd].
  pose proof (loadScript_cases w s) as H. cbn zeta in H.
  destruct H as (H1 & _ & _ & _ & H). rewrite Hd, Hq, Hready in H. rewrite H1.
  cbn [orb] in H. destruct H as (Hdoc & Hps & Htag & _).
  unfold created.
  past_memo.
  rewrite Hdoc, Htag, Hd. repeat split. by apply outcome_last.
Qed.

Lemma inert_initial v : inert (initial None v).
Proof. by repeat split. Qed.

Lemma inert_load w s : inert s → inert (load o w s).2.
Proof.
  intros (Hd & Hl & Hp). destruct (_promise s) as [p|] eqn:Hm.
  - rewrite (load_memoised _ _ p) by done. cbn [snd].
    repeat split; try done. intros q Hq. apply Hp. congruence.
  - rewrite load_starts by done. cbn [snd].
    pose proof (loadScript_cases w s) as H. cbn zeta in H.
    destruct H as (H1 & _ & _ & _ & H). rewrite Hd in H.
    destruct H as (Hdoc & Hps & _ & Hls).
    split; [done|]. split; [by rewrite <- Hl|].
    intros p [= <-]. rewrite H1. by apply outcome_last.
Qed.

Lemma inert_step op s : inert s → inert (step o op s).
Proof.
  intros H. destruct op as [w| |ev|v]; cbn [step].
  - by apply inert_load.
  - destruct H as (Hd & Hl & Hp). unfold unload. rewrite Hd. cbn [snd]. by repeat split.
  - destruct H as (Hd & Hl & Hp). unfold dispatchEvent. rewrite Hl. cbn. by repeat split.
  - done.
Qed.

Lemma inert_run t s : inert s → inert (run o t s).
Proof.
  revert s. induction t as [|op t IH]; intros s H; [done|].
  unfold run. cbn [foldl]. apply IH. by apply inert_step.
Qed.

(** C3.  A loader set up without a document, in whatever state its history
    has left it: [load] returns a promise fulfilled with [false] (not a
    rejected one), and [unload] returns without changing anything. *)
Theorem without_document_load_is_false_and_unload_idle v t w :
  let s := run o t (initial None v) in
  outcome (load o w s).1 (load o w s).2 = Some (Fulfilled VFalse) ∧
  unload s = (returned, s).
Proof.
  cbn zeta. pose proof (inert_run t _ (inert_initial v)) as Hs.
  split.
  - destruct (inert_load w _ Hs) as (_ & _ & H). apply H, load_memo.
  - destruct Hs as (Hd & _). unfold unload. by rewrite Hd.
Qed.

Lemma settle_pending_inv p q r st :
  r ≠ Pending → settle p r st !! q = Some Pending → st !! q = Some Pending.
Proof.
  intros Hr H. destruct (decide (q = p)) as [->|Hne].
  - destruct (st !! p) as [x|] eqn:Hp.
    + destruct (decide (x = Pending)) as [->|Hx]; [done|].
      rewrite (settle_settled _ _ _ x) in H by done. congruence.
    + unfold settle in H. rewrite Hp in H. congruence.
  - by rewrite settle_other in H.
Qed.

(** What any listener may do to the promises: settle pending ones. *)
Lemma run_handler_promises ev h s q :
  listeners (run_handler ev h s) = listeners s ∧
  (outcome q (run_handler ev h s) = Some Pending → outcome q s = Some Pending) ∧
  (∀ x, outcome q s = Some x → x ≠ Pending → outcome q (run_handler ev h s) = Some x).
Proof.
  unfold outcome. destruct h as [p|p el]; cbn; (split; [done|]); split.
  - by apply settle_pending_inv.
  - intros x. apply settle_keeps.
  - by apply settle_pending_inv.
  - intros x. apply settle_keeps.
Qed.

Lemma handlers_promises ev l s q :
  let s' := foldl (λ s x, run_handler ev (l_handler x) s) s l in
  listeners s' = listeners s ∧
  (outcome q s' = Some Pending → outcome q s = Some Pending) ∧
  (∀ x, outcome q s = Some x → x ≠ Pending → outcome q s' = Some x).
Proof.
  cbn zeta. revert s. induction l as [|y l IH]; intros s; [done|].
  cbn [foldl]. destruct (IH (run_handler ev (l_handler y) s)) as (Hl & Hp & Hk).
  destruct (run_handler_promises ev (l_handler y) s q) as (Hl' & Hp' & Hk').
  split; [congruence|]. split; [auto|]. intros x Hx Hne. auto.
Qed.

Lemma dispatchEvent_promises ev s q :
  listeners (dispatchEvent ev s) = listeners s ∧
  (outcome q (dispatchEvent ev s) = Some Pending → outcome q s = Some Pending) ∧
  (∀ x, outcome q s = Some x → x ≠ Pending → outcome q (dispatchEvent ev s) = Some x).
Proof. apply handlers_promises. Qed.

Lemma unload_keeps s :
  promises (unload s).2 = promises s ∧ listeners (unload s).2 = listeners s ∧
  src (unload s).2 = src s.
Proof.
  unfold unload. destruct s as [doc v tag memo ps ls calls]. cbn.
  destruct doc as [d|]; [|done]. destruct tag; cbn;
    destruct (querySelector_script_src v d) as [el|]; cbn; try done;
    destruct (head_removeChild el d); done.
Qed.

Lemma loadScript_promises w s :
  ∃ x, promises (loadScript o w s).2 = promises s ++ [x] ∧
       (x = Pending → ∃ el, listeners (loadScript o w s).2 =
                              listeners s ++ attached (length (promises s)) el) ∧
       (∃ l, listeners (loadScript o w s).2 = listeners s ++ l ∧ Forall well_attached l).
Proof.
  pose proof (loadScript_cases w s) as H. cbn zeta in H.
  destruct H as (_ & _ & _ & _ & H).
  assert (∀ p el, Forall well_attached (attached p el)) as Hwa.
  { intros p el. repeat constructor; done. }
  destruct (document s) as [d|].
  - destruct (querySelector_script_src (src s) d) as [el|].
    + destruct H as (_ & Hps & _ & Hls). eexists. split; [exact Hps|]. eauto.
    + destruct H as (_ & Hps & _ & Hls). eexists. split; [exact Hps|]. eauto.
  - destruct H as (_ & Hps & _ & Hls). eexists. split; [exact Hps|].
    split; [done|]. exists []. by rewrite app_nil_r.
Qed.

Lemma wired_initial d v : wired (initial d v).
Proof. split; [constructor|]. intros p. cbn. by rewrite lookup_nil. Qed.

Lemma wired_load w s : wired s → wired (load o w s).2.
Proof.
  intros [Hf Hp]. destruct (_promise s) as [p|] eqn:Hm.
  - by rewrite (load_memoised _ _ p).
  - rewrite load_starts by done. cbn [snd].
    destruct (loadScript_promises w s) as (x & Hps & Hx & l & Hls & Hl).
    split; cbn.
    + rewrite Hls. by apply Forall_app.
    + intros q. rewrite Hps. intros Hq.
      destruct (decide (q < length (promises s))) as [Hlt|Hge].
      * rewrite lookup_app_l in Hq by done. destruct (Hp q Hq) as [el Hel].
        exists el. rewrite Hls. intros y Hy. apply elem_of_app. left. by apply Hel.
      * apply lookup_lt_Some in Hq as Hlen. rewrite length_app in Hlen. cbn in Hlen.
        assert (q = length (promises s)) as -> by lia.
        rewrite lookup_app_r, Nat.sub_diag in Hq by lia. cbn in Hq.
        destruct (Hx ltac:(congruence)) as [el Hel]. exists el. cbn [listeners]. rewrite Hel. intros y Hy. apply elem_of_app. by right.
Qed.

Lemma wired_step op s : wired s → wired (step o op s).
Proof.
  intros Hw. destruct op as [w| |ev|v]; cbn [step].
  - by apply wired_load.
  - destruct Hw as [Hf Hp]. destruct (unload_keeps s) as (Hps & Hls & _).
    split; [by rewrite Hls|]. rewrite Hps, Hls. done.
  - destruct Hw as [Hf Hp]. split.
    + destruct (dispatchEvent_promises ev s 0) as (-> & _). done.
    + intros q Hq. destruct (dispatchEvent_promises ev s q) as (-> & Hpend & _).
      apply Hp. by apply Hpend.
  - done.
Qed.

Lemma wired_run t s : wired s → wired (run o t s).
Proof.
  revert s. induction t as [|op t IH]; intros s H; [done|].
  unfold run. cbn [foldl]. apply IH. by apply wired_step.
Qed.

Lemma rejecting_handlers ev l s p :
  (∀ x, x ∈ l → ∃ q, l_handler x = reject_event q) →
  let s' := foldl (λ s x, run_handler ev (l_handler x) s) s l in
  document s' = document s ∧
  (outcome p s = Some Pending → (∃ x, x ∈ l ∧ l_handler x = reject_event p) →
   outcome p s' = Some (Rejected ev)).
Proof.
  cbn zeta. revert s. induction l as [|y l IH]; intros s Hl.
  - split; [done|]. intros _ (x & Hx & _). by apply elem_of_nil in Hx.
  - cbn [foldl]. destruct (Hl y ltac:(left)) as [q Hq].
    destruct (IH (run_handler ev (l_handler y) s)) as [Hd Hp].
    { intros x Hx. apply Hl. by right. }
    rewrite Hq in *. split; [by rewrite Hd|].
    intros Hpend (x & Hx & Hxp). destruct (decide (q = p)) as [->|Hne].
    + destruct (handlers_promises ev l (run_handler ev (reject_event p) s) p) as (_ & _ & Hk).
      apply Hk; [|done]. unfold outcome. cbn. by apply settle_pending.
    + apply Hp.
      * unfold outcome. cbn. unfold reject. by rewrite settle_other.
      * apply elem_of_cons in Hx as [->|Hx]; [congruence|]. eauto.
Qed.

Lemma outcome_settled_step op s p x :
  outcome p s = Some x → x ≠ Pending → outcome p (step o op s) = Some x.
Proof.
  intros Hp Hx. destruct op as [w| |ev|v]; cbn [step].
  - destruct (_promise s) as [q|] eqn:Hm.
    + by rewrite (load_memoised _ _ q).
    + rewrite load_starts by done. cbn [snd].
      destruct (loadScript_promises w s) as (y & Hps & _).
      unfold outcome in *. cbn. rewrite Hps. rewrite lookup_app_l; [done|].
      by eapply lookup_lt_Some.
  - unfold outcome. destruct (unload_keeps s) as (-> & _). done.
  - by apply dispatchEvent_promises.
  - done.
Qed.

Lemma outcome_settled_run t s p x :
  outcome p s = Some x → x ≠ Pending → outcome p (run o t s) = Some x.
Proof.
  revert s. induction t as [|op t IH]; intros s Hp Hx; [done|].
  unfold run. cbn [foldl]. apply IH; [|done]. by apply outcome_settled_step.
Qed.

Lemma listeners_step op s l : l ∈ listeners s → l ∈ listeners (step o op s).
Proof.
  intros Hl. destruct op as [w| |ev|v]; cbn [step].
  - destruct (_promise s) as [p|] eqn:Hm.
    + by rewrite (load_memoised _ _ p).
    + rewrite load_starts by done. cbn [snd].
      destruct (loadScript_promises w s) as (x & _ & _ & l' & Hls & _).
      cbn [listeners set__promise]. rewrite Hls. apply elem_of_app. by left.
  - by destruct (unload_keeps s) as (_ & -> & _).
  - by destruct (dispatchEvent_promises ev s 0) as (-> & _).
  - done.
Qed.

Lemma listeners_run t s l : l ∈ listeners s → l ∈ listeners (run o t s).
Proof.
  revert s. induction t as [|op t IH]; intros s Hl; [done|].
  unfold run. cbn [foldl]. apply IH. by apply listeners_step.
Qed.

(** A [load] that starts a load attaches the three listeners of its promise
    to the script element it works on. *)
Lemma load_attaches w s el :
  _promise s = None → script_of_load s = Some el →
  attached (load o w s).1 el ⊆ listeners (load o w s).2.
Proof.
  intros Hm Hel. rewrite load_starts by done. cbn [fst snd].
  pose proof (loadScript_cases w s) as H. cbn zeta in H.
  destruct H as (H1 & _ & _ & _ & H). rewrite H1. cbn [listeners set__promise].
  unfold script_of_load in Hel. destruct (document s) as [d|]; [|done]. cbn in Hel.
  destruct (querySelector_script_src (src s) d) as [x|]; cbn in Hel; injection Hel as <-;
    destruct H as (_ & _ & _ & ->); intros y Hy; apply elem_of_app; by right.
Qed.

(** The promise of a [load] that starts a load, as long as it is pending:
    its listeners sit on the script element of that load, and an error or
    abort event there rejects it for good. *)
Lemma rejected_after_load d v t0 w t :
  let s0 := run o t0 (initial d v) in
  let p := (load o w s0).1 in
  let s := run o t (load o w s0).2 in
  _promise s0 = None → outcome p s = Some Pending →
  ∃ el,
    (selector_safe (src s0) = true → script_of_load s0 = Some el) ∧
    attached p el ⊆ listeners s ∧
    ∀ ty, ty ≠ load_event →
      let ev := {| ev_type := ty; ev_target := el |} in
      let s' := dispatchEvent ev s in
      outcome p s' = Some (Rejected ev) ∧
      (∀ t', outcome p (run o t' s') = Some (Rejected ev)) ∧
      _promise s' = _promise s ∧
      (_promise s = Some p → ∀ w', load o w' s' = (p, s')) ∧
      document s' = document s ∧ listeners s' = listeners s.
Proof.
  cbn zeta. intros Hm Hpend.
  set (s0 := run o t0 (initial d v)) in *.
  set (p := (load o w s0).1) in *.
  set (s := run o t (load o w s0).2) in *.
  assert (∃ el, script_of_load s0 = Some el) as [el Hscript].
  { unfold script_of_load. destruct (document s0) as [d0|] eqn:Hd0; [cbn; eauto|].
    exfalso.
    assert (outcome p (load o w s0).2 = Some (Fulfilled VFalse)) as Hf0.
    { unfold p. rewrite load_starts by done. cbn [fst snd]. past_memo.
      pose proof (loadScript_cases w s0) as H. cbn zeta in H.
      destruct H as (H1 & _ & _ & _ & H). rewrite Hd0 in H. destruct H as (_ & Hps & _).
      rewrite H1. by apply outcome_last. }
    pose proof (outcome_settled_run t _ p _ Hf0 ltac:(discriminate)) as Hs.
    fold s in Hs. congruence. }
  exists el. split; [done|].
  assert (wired s) as [Hf _].
  { apply wired_run, wired_load, wired_run, wired_initial. }
  assert (attached p el ⊆ listeners s) as Hel.
  { intros l Hl. apply listeners_run. by apply (load_attaches w s0 el). }
  split; [done|].
  intros ty Hty. set (ev := {| ev_type := ty; ev_target := el |}).
  destruct (rejecting_handlers ev (List.filter (listens_to ev) (listeners s)) s p) as [Hd Hr].
  { intros x Hx. apply list_elem_of_In, filter_In in Hx as [Hx Hev].
    apply bool_decide_eq_true in Hev as [_ Hxty].
    rewrite Forall_forall in Hf. specialize (Hf x (proj2 (list_elem_of_In _ _) Hx)).
    unfold well_attached in Hf. destruct (l_handler x) as [q|q e]; [eauto|].
    destruct Hf as [Hf _]. cbn in Hxty. congruence. }
  assert (outcome p (dispatchEvent ev s) = Some (Rejected ev)) as Hrej.
  { apply Hr; [done|].
    exists {| l_target := el; l_type := ty; l_handler := reject_event p |}. split; [|done].
    apply list_elem_of_In, filter_In. split.
    - apply list_elem_of_In, Hel. unfold attached. apply list_elem_of_In. cbn.
      destruct ty; [done| |]; auto.
    - by apply bool_decide_eq_true. }
  split; [done|]. split; [|split; [|split; [|split]]].
  - intros t'. by apply outcome_settled_run.
  - apply dispatchEvent_memo.
  - intros Hmemo w'. apply load_memoised. by rewrite dispatchEvent_memo.
  - exact Hd.
  - by destruct (dispatchEvent_promises ev s 0) as (-> & _).
Qed.

Lemma dispatchEvent_length ev s :
  length (promises (dispatchEvent ev s)) = length (promises s).
Proof.
  unfold dispatchEvent. generalize (List.filter (listens_to ev) (listeners s)).
  intros l. revert s. induction l as [|x l IH]; intros s; [done|].
  cbn [foldl]. rewrite IH. destruct (l_handler x); cbn; unfold reject, resolve;
    by rewrite settle_length.
Qed.

(** Every promise of a reachable state was created by a call of [load] in
    the history that found nothing memoised. *)
Lemma promise_origin d v t p x :
  promises (run o t (initial d v)) !! p = Some x →
  ∃ t1 w t2, t = t1 ++ Load w :: t2 ∧
    _promise (run o t1 (initial d v)) = None ∧
    p = length (promises (run o t1 (initial d v))).
Proof.
  revert p x. induction t as [|op t IH] using rev_ind; intros p x Hp.
  - cbn in Hp. by rewrite lookup_nil in Hp.
  - unfold run in Hp. rewrite foldl_app in Hp. cbn [foldl] in Hp.
    fold (run o t (initial d v)) in Hp.
    set (s := run o t (initial d v)) in *.
    destruct (decide (p < length (promises s))) as [Hlt|Hge].
    + destruct (lookup_lt_is_Some_2 _ _ Hlt) as [y Hy].
      destruct (IH p y Hy) as (t1 & w & t2 & -> & Hm & Hlen).
      exists t1, w, (t2 ++ [op]). split; [by rewrite <- app_assoc|done].
    + apply lookup_lt_Some in Hp as Hlen.
      destruct op as [w| |ev|u]; cbn [step] in Hlen.
      * destruct (_promise s) as [q|] eqn:Hm.
        -- rewrite (load_memoised _ _ q) in Hlen by done. cbn in Hlen. lia.
        -- rewrite load_starts in Hlen by done. cbn [snd promises set__promise] in Hlen.
           destruct (loadScript_promises w s) as (y & Hps & _). rewrite Hps in Hlen.
           rewrite length_app in Hlen. cbn in Hlen.
           exists t, w, []. split; [done|]. split; [done|]. fold s. lia.
      * destruct (unload_keeps s) as (Hps & _). rewrite Hps in Hlen. lia.
      * rewrite dispatchEvent_length in Hlen. lia.
      * cbn in Hlen. lia.
Qed.

(** C7.  In any state a loader can reach, take a promise [p] that is
    pending.  It was returned by a call of [load] in the history that
    started a load, and it has its script element [el]: the three listeners
    of [p] sit on it, and (for a src that is [selector_safe]) it is the
    script element of that load, the one the lookup found or else the one
    just created.  When [el] fires error or abort, [p] is rejected with the
    event and stays rejected, so every caller holding it sees the rejection.
    Nothing is retried: the memoised promise is not replaced, [load] keeps
    returning the rejected promise, and the document and the listeners are
    as before. *)
Theorem error_or_abort_rejects_pending_load d v t p :
  let s := run o t (initial d v) in
  outcome p s = Some Pending →
  ∃ el t1 w t2,
    t = t1 ++ Load w :: t2 ∧
    let s0 := run o t1 (initial d v) in
    _promise s0 = None ∧ (load o w s0).1 = p ∧
    (selector_safe (src s0) = true → script_of_load s0 = Some el) ∧
    attached p el ⊆ listeners s ∧
    ∀ ty, ty ≠ load_event →
      let ev := {| ev_type := ty; ev_target := el |} in
      let s' := dispatchEvent ev s in
      outcome p s' = Some (Rejected ev) ∧
      (∀ t', outcome p (run o t' s') = Some (Rejected ev)) ∧
      _promise s' = _promise s ∧
      (_promise s = Some p → ∀ w', load o w' s' = (p, s')) ∧
      document s' = document s ∧ listeners s' = listeners s.
Proof.
  cbn zeta. intros Hpend.
  destruct (promise_origin d v t p Pending Hpend) as (t1 & w & t2 & -> & Hm & Hlen).
  assert ((load o w (run o t1 (initial d v))).1 = p) as Hp.
  { rewrite load_starts by done. cbn [fst].
    pose proof (loadScript_cases w (run o t1 (initial d v))) as H. cbn zeta in H.
    destruct H as (-> & _). done. }
  assert (run o (t1 ++ Load w :: t2) (initial d v) =
          run o t2 (load o w (run o t1 (initial d v))).2) as E.
  { unfold run. by rewrite foldl_app. }
  rewrite E in *. rewrite <- Hp in Hpend.
  destruct (rejected_after_load d v t1 w t2 Hm Hpend) as (el & Htie & Hatt & H).
  rewrite Hp in *.
  exists el, t1, w, t2. split; [done|]. split; [done|]. split; [done|].
  split; [done|]. split; [done|]. exact H.
Qed.

Lemma querySelector_matching v d : querySelector_script_src v d = hd_error (matching v d).
Proof. apply find_filter. Qed.

Lemma unload_resets s d :
  document s = Some d →
  _promise (unload s).2 = None ∧ scriptTag (unload s).2 = None.
Proof.
  intros Hd. unfold unload. rewrite Hd.
  destruct s as [doc v tag memo ps ls calls]. cbn.
  destruct tag; cbn; destruct (querySelector_script_src v d) as [el|]; cbn; try done;
    destruct (head_removeChild el d); done.
Qed.

Lemma prepare_script_is_script v d :
  ∃ e, nodes (prepare_script o v d).2 !! length (nodes d) = Some e ∧ localName e = "script".
Proof.
  destruct (prepare_script_touches o v d) as (_ & _ & _ & _ & Hn).
  remember (prepare_script o v d).2 as d' eqn:E. clear E.
  unfold createElement in Hn. cbn [snd set_nodes nodes] in Hn.
  rewrite lookup_app_r, Nat.sub_diag in Hn by lia. cbn in Hn.
  destruct (nodes d' !! length (nodes d)) as [e|]; [|done].
  exists e. split; [done|]. cbn in Hn. congruence.
Qed.

(** Removing the one matching script from head leaves no match. *)
Lemma matching_removed v d el :
  well_formed d → matching v d = [el] → el ∈ head d →
  let d1 := {| nodes := nodes d; head := without el (head d); elsewhere := elsewhere d |} in
  matching v d1 = [] ∧ el ∉ tree d1.
Proof.
  intros [Hnd _] Hm Hh. cbn zeta. unfold tree in Hnd.
  apply NoDup_app in Hnd as (_ & Hdis & _).
  split.
  - unfold matching, tree. cbn [head elsewhere].
    change (matches_script_src v {| nodes := nodes d; head := without el (head d);
                                    elsewhere := elsewhere d |})
      with (matches_script_src v d).
    apply filter_none. intros x Hx.
    destruct (matches_script_src v d x) eqn:Hf; [exfalso|done].
    assert (x ∈ tree d) as Hxt.
    { unfold tree. apply elem_of_app in Hx as [Hx|Hx]; apply elem_of_app; [left|by right].
      unfold without in Hx. by apply list_elem_of_filter in Hx as [_ Hx]. }
    assert (x ∈ matching v d) as Hxm.
    { unfold matching. apply list_elem_of_In, filter_In. split; [by apply list_elem_of_In|done]. }
    rewrite Hm in Hxm. apply list_elem_of_singleton in Hxm as ->.
    apply elem_of_app in Hx as [Hx|Hx].
    + by apply not_elem_of_without in Hx.
    + by apply (Hdis el).
  - unfold tree. cbn [head elsewhere]. intros Hx.
    apply elem_of_app in Hx as [Hx|Hx].
    + by apply not_elem_of_without in Hx.
    + by apply (Hdis el).
Qed.

(** If at most one script matches the src and it is a child of head,
    [unload] returns normally and leaves no match in the document. *)
Lemma unload_removes_the_script s d :
  document s = Some d → well_formed d →
  (∀ el, el ∈ matching (src s) d → matching (src s) d = [el] ∧ el ∈ head d) →
  (unload s).1 = returned ∧
  ∃ d1, document (unload s).2 = Some d1 ∧ nodes d1 = nodes d ∧
        matching (src s) d1 = [] ∧ ∀ el, el ∈ matching (src s) d → el ∉ tree d1.
Proof.
  intros Hd Hwf Hone. unfold unload. rewrite Hd.
  destruct s as [doc v tag memo ps ls calls]. cbn in *. subst doc.
  pose proof (querySelector_matching v d) as Eq.
  destruct (matching v d) as [|el l] eqn:Hm.
  - cbn [hd_error] in Eq.
    assert (∀ x : nat, x ∈ @nil nat → x ∉ tree d) as Hnil.
    { intros x Hx. by apply elem_of_nil in Hx. }
    destruct tag; cbn; rewrite Eq; cbn; (split; [done|]); exists d;
      (split; [done|]); (split; [done|]); (split; [exact Hm|exact Hnil]).
  - destruct (Hone el ltac:(left)) as [E Hh]. injection E as ->.
    destruct (matching_removed v d el Hwf Hm Hh) as [Hnone Hgone].
    cbn [hd_error] in Eq.
    assert (head_removeChild el d =
            Some {| nodes := nodes d; head := without el (head d);
                    elsewhere := elsewhere d |}) as Er.
    { unfold head_removeChild. by rewrite bool_decide_eq_true_2. }
    assert (∀ x : nat, x ∈ [el] →
              x ∉ tree {| nodes := nodes d; head := without el (head d);
                          elsewhere := elsewhere d |}) as Hall.
    { intros x Hx. by apply list_elem_of_singleton in Hx as ->. }
    destruct tag; cbn; rewrite Eq, Er; cbn; (split; [done|]); eexists;
      (split; [done|]); (split; [done|]); (split; [exact Hnone|exact Hall]).
Qed.

(** C2, as amended.  Take a well-formed document in which at most one script
    has this src and that one is a child of head, a src that is
    [selector_safe] and custom attributes with plain names.  Then [unload]
    returns normally, takes that script out of the document and leaves the
    memoised promise and the [scriptTag] handle at their defaults; and the
    [load] that follows starts afresh: it returns a promise that did not
    exist before and creates one script element, a node that did not exist
    before, appended to head; the handle is that new element or still empty,
    never an older element. *)
Theorem unload_then_load_builds_new_script w s d :
  document s = Some d → well_formed d →
  selector_safe (src s) = true → forallb plain_name (attr_names o) = true →
  (∀ el, el ∈ matching (src s) d → matching (src s) d = [el] ∧ el ∈ head d) →
  let s1 := (unload s).2 in
  let el := length (nodes d) in
  let r := load o w s1 in
  (unload s).1 = returned ∧ _promise s1 = None ∧ scriptTag s1 = None ∧
  (∀ x, x ∈ matching (src s) d → connected x s1 = false) ∧
  r.1 = length (promises s) ∧
  created r.2 = S (created s) ∧
  (∃ d2 e, document r.2 = Some d2 ∧ nodes d2 !! el = Some e ∧
           localName e = "script" ∧ el ∈ head d2) ∧
  scriptTag r.2 = (if w then None else Some el) ∧
  outcome r.1 r.2 = Some (if w then Pending else Fulfilled (VElement el)).
Proof.
  intros Hd Hwf _ _ Hone. cbn zeta. destruct (unload_resets s d Hd) as [Hm Htag].
  destruct (unload_removes_the_script s d Hd Hwf Hone)
    as (Hret & d1 & Hd1 & Hn1 & Hm1 & Hgone).
  destruct (unload_keeps s) as (Hkeep & _ & Hsrc).
  assert (querySelector_script_src (src (unload s).2) d1 = None) as Hq.
  { by rewrite querySelector_matching, Hsrc, Hm1. }
  split; [done|]. split; [done|]. split; [done|]. split.
  { intros x Hx. unfold connected. rewrite Hd1. apply bool_decide_eq_false. by apply Hgone. }
  rewrite load_starts by done. cbn [fst snd].
  pose proof (loadScript_cases w (unload s).2) as H. cbn zeta in H.
  destruct H as (H1 & _ & _ & _ & H). rewrite Hd1, Hq in H.
  destruct H as (Hdoc & Hps & Hst & _).
  rewrite H1, Hkeep.
  unfold created.
  past_memo.
  rewrite Hdoc, Hd, Hst, Htag. rewrite Hn1 in *. split; [done|]. split.
  { unfold head_appendChild. cbn [nodes]. by rewrite prepare_script_nodes, Hn1. }
  split.
  { destruct (prepare_script_is_script (src (unload s).2) d1) as (e & He & Hn).
    rewrite Hn1 in He.
    eexists _, e. split; [done|]. unfold head_appendChild. cbn [nodes head].
    split; [done|]. split; [done|]. apply elem_of_app. right. by left. }
  split; [by destruct w|].
  rewrite <- Hkeep. apply outcome_last. rewrite Hps. by destruct w.
Qed.

End Loader.

(** C1, counterexample.  The script is already in the document, not yet
    loaded: two calls of [load] share a pending promise and no element is
    created at all. *)
Lemma load_calls_may_create_no_script :
  let s := initial (Some (one_script false)) "x.js" in
  let r := loads default_options [true; true] s in
  r.1 = [0; 0] ∧ outcome 0 r.2 = Some Pending ∧
  created r.2 = created s ∧ created r.2 ≠ S (created s).
Proof. vm_compute. repeat split; congruence. Qed.

Lemma load_calls_share_one_promise_witness :
  ∃ p, (loads default_options [true; false; true] fresh).1 = [p; p; p] ∧
       created (loads default_options [true; false; true] fresh).2 = 1.
Proof.
  destruct (load_calls_share_one_promise default_options true [false; true] fresh)
    as (p & Hps & _ & _ & Hc & _).
  exists p. split; [exact Hps | exact (Hc eq_refl)].
Defined.

(** C2, counterexample.  The document holds the script twice: [unload]
    removes the first, and the [load] that follows finds the second and
    creates nothing. *)
Lemma unload_then_load_may_reuse_script :
  let s := initial (Some two_scripts) "x.js" in
  let s1 := (unload s).2 in
  let r := load default_options true s1 in
  (unload s).1 = returned ∧ head <$> document s1 = Some [1] ∧
  created r.2 = created s1 ∧ created r.2 ≠ S (created s1) ∧
  outcome r.1 r.2 = Some Pending.
Proof. vm_compute. repeat split; congruence. Qed.

Lemma unload_then_load_builds_new_script_witness :
  document loading = Some loading_document ∧
  matching (src loading) loading_document = [0] ∧
  (unload loading).1 = returned ∧
  connected 0 (unload loading).2 = false ∧
  created (load default_options false (unload loading).2).2 = 2 ∧
  scriptTag (load default_options false (unload loading).2).2 = Some 1.
Proof.
  assert (document loading = Some loading_document) as H1 by reflexivity.
  assert (matching (src loading) loading_document = [0]) as H2 by reflexivity.
  assert (well_formed loading_document) as Hwf.
  { split.
    - change (tree loading_document) with [0]. apply NoDup_singleton.
    - change (tree loading_document) with [0]. intros el Hel.
      apply list_elem_of_singleton in Hel as ->. vm_compute. lia. }
  assert (∀ el, el ∈ matching (src loading) loading_document →
                matching (src loading) loading_document = [el] ∧ el ∈ head loading_document)
    as Hone.
  { rewrite H2. intros el Hel. apply list_elem_of_singleton in Hel as ->.
    split; [done|]. change (head loading_document) with [0]. by left. }
  destruct (unload_then_load_builds_new_script default_options false loading
              loading_document H1 Hwf eq_refl eq_refl Hone)
    as (Hr & _ & _ & Hgone & _ & Hc & _ & Ht & _).
  assert (0 ∈ matching (src loading) loading_document) as H0.
  { rewrite H2. by left. }
  exact (conj H1 (conj H2 (conj Hr (conj (Hgone 0 H0) (conj Hc Ht))))).
Defined.

(** A script that is not a child of head cannot be removed: [unload] resets
    the cells, then [head.removeChild] throws and the script stays where it
    is, to be found again by the next [load]. *)
Lemma unload_throws_outside_head :
  let s := initial (Some script_in_body) "x.js" in
  unload s = (threw NotFoundError, s) ∧
  created (load default_options true s).2 = created s.
Proof. vm_compute. done. Qed.

(** C4, counterexample.  Without a document [unload] returns at once and the
    memoised promise stays. *)
Lemma unload_without_document_keeps_memo :
  let s := (load default_options true (initial None "x.js")).2 in
  _promise s = Some 0 ∧ _promise (unload s).2 = Some 0 ∧ _promise (unload s).2 ≠ None.
Proof. vm_compute. repeat split; congruence. Qed.

Lemma memo_cleared_by_unload_with_document_witness :
  _promise (unload loading).2 = None ∧
  _promise (step default_options (Dispatch {| ev_type := load_event; ev_target := 0 |}) loading)
    = Some 0 ∧
  (load default_options true (unload loading).2).1 = 1.
Proof.
  destruct (memo_cleared_by_unload_with_document default_options loading)
    as (H1 & _ & H3 & _).
  destruct (memo_cleared_by_unload_with_document default_options (unload loading).2)
    as (_ & _ & _ & H4).
  split; [apply H1; by eexists|]. split; [by apply H3|].
  destruct (H4 true (H1 (mk_is_Some _ _ eq_refl))) as (H & _). exact H.
Defined.

(** C5, counterexample.  A first [load(true)] is pending; [load(false)] then
    returns that same pending promise instead of a resolved one. *)
Lemma load_without_waiting_may_stay_pending :
  load default_options false loading = (0, loading) ∧ outcome 0 loading = Some Pending.
Proof. vm_compute. done. Qed.

Lemma load_without_waiting_is_fulfilled_witness :
  outcome 0 (load default_options false fresh).2 = Some (Fulfilled (VElement 0)) ∧
  connected 0 (load default_options false fresh).2 = true.
Proof.
  destruct (load_without_waiting_is_fulfilled default_options fresh empty_document
              eq_refl eq_refl eq_refl eq_refl) as (el & Ho & Hc & Ht & _).
  assert (el = 0) as -> by (vm_compute in Ht; congruence).
  split; [exact Ho | exact Hc].
Defined.

(** C6, counterexample.  A loader for [x.js] made its first [load]; the
    promise is pending.  Its src then changes to [y.js], and a script for
    [y.js] that carries [data-loaded] is in the document: [load] still
    returns the pending promise of the first call and the handle stays
    empty.  And when the document holds the script twice and only the second
    one carries [data-loaded], a first [load] takes up the first one and its
    promise is pending. *)
Lemma ready_script_is_not_delivered :
  (let s := set_src "y.js" (load default_options true (initial (Some ready_y) "x.js")).2 in
   (∃ d, document s = Some d ∧ querySelector_script_src (src s) d = Some 0 ∧
         hasAttribute "data-loaded" 0 d = true) ∧
   load default_options true s = (0, s) ∧
   outcome 0 s = Some Pending ∧
   scriptTag (load default_options true s).2 = None) ∧
  (let s := initial (Some second_ready) "x.js" in
   hasAttribute "data-loaded" 1 second_ready = true ∧
   isConnected 1 second_ready = true ∧
   outcome (load default_options true s).1 (load default_options true s).2 = Some Pending ∧
   scriptTag (load default_options true s).2 = None).
Proof.
  cbn zeta. split.
  - split; [eexists; split; [reflexivity|]; by vm_compute|]. by vm_compute.
  - by vm_compute.
Qed.

Lemma load_reuses_ready_script_witness :
  let s := initial (Some (one_script true)) "x.js" in
  outcome 0 (load default_options true s).2 = Some (Fulfilled (VElement 0)) ∧
  document (load default_options true s).2 = Some (one_script true).
Proof.
  destruct (load_reuses_ready_script default_options true
              (initial (Some (one_script true)) "x.js") (one_script true) 0
              eq_refl eq_refl eq_refl eq_refl eq_refl) as (Ho & Hd & _).
  split; [exact Ho | exact Hd].
Defined.

Lemma error_or_abort_rejects_pending_load_witness :
  let ev := {| ev_type := error_event; ev_target := 0 |} in
  outcome 0 (dispatchEvent ev loading) = Some (Rejected ev).
Proof.
  destruct (error_or_abort_rejects_pending_load default_options (Some empty_document) "x.js"
              [Load true] 0 eq_refl) as (el & t1 & w & t2 & _ & _ & _ & _ & Hel & H).
  assert (el = 0) as ->.
  { specialize (Hel _ (list_elem_of_here _ _)). vm_compute in Hel.
    apply list_elem_of_In in Hel. cbn in Hel.
    destruct Hel as [Hel|[Hel|[Hel|[]]]]; congruence. }
  destruct (H error_event ltac:(discriminate)) as (Hr & _). exact Hr.
Defined.

Lemma load_returns_first_promise_until_unload_witness :
  let t := [Load false; Dispatch {| ev_type := load_event; ev_target := 0 |}; SetSrc "y.js"] in
  load default_options false (run default_options t loading) =
  (0, run default_options t loading).
Proof.
  cbn zeta. refine (load_returns_first_promise_until_unload default_options true false _ fresh _).
  intros H. repeat (apply elem_of_cons in H as [H|H]; [discriminate|]).
  by apply elem_of_nil in H.
Defined.

End ScriptTagFacts.

Module StyleTagFacts.
Import Dom UseStyleTag DomFacts.

Lemma set_up_style_spec s el d :
  el < length (nodes d) →
  let d' := set_up_style s el d in
  length (nodes d') = length (nodes d) ∧
  head d' = without el (head d) ++ [el] ∧
  elsewhere d' = without el (elsewhere d) ∧
  getAttribute "id" el d' = Some (the_id s) ∧
  ∀ x, x ≠ el → getAttribute "id" x d' = getAttribute "id" x d.
Proof.
  intros Hlt. unfold set_up_style.
  set (d1 := setAttribute "id" (the_id s) el d).
  set (d2 := if truthy (nonce (options s))
             then setNonce (default "" (nonce (options s))) el d1 else d1).
  set (d3 := if truthy (media (options s))
             then setAttribute "media" (default "" (media (options s))) el d2 else d2).
  cbn zeta.
  assert (touches el d d1) as T1 by apply touches_setAttribute.
  assert (touches el d1 d2) as T2.
  { unfold d2. destruct (truthy (nonce (options s)));
      [apply touches_setNonce | apply touches_refl]. }
  assert (touches el d2 d3) as T3.
  { unfold d3. destruct (truthy (media (options s)));
      [apply touches_setAttribute | apply touches_refl]. }
  assert (∀ x, getAttribute "id" x d2 = getAttribute "id" x d1) as A2.
  { intros x. unfold d2. destruct (truthy (nonce (options s))); [|done].
    apply getAttribute_setNonce. }
  assert (∀ x, getAttribute "id" x d3 = getAttribute "id" x d2) as A3.
  { intros x. unfold d3. destruct (truthy (media (options s))); [|done].
    apply getAttribute_setAttribute_ne. by left. }
  pose proof (touches_trans _ _ _ _ (touches_trans _ _ _ _ T1 T2) T3) as (Hl & Hh & He & _).
  change (nodes (head_appendChild el d3)) with (nodes d3).
  change (getAttribute "id" ?x (head_appendChild el d3)) with (getAttribute "id" x d3).
  unfold head_appendChild. cbn [head elsewhere]. rewrite Hl, Hh, He.
  repeat split.
  - rewrite A3, A2. by apply getAttribute_setAttribute_eq.
  - intros x Hx. rewrite A3, A2. apply getAttribute_setAttribute_ne. by right.
Qed.

Lemma run_watchers_idle v ws d :
  Forall (λ x, w_active x = false) ws → run_watchers v ws d = (ws, d).
Proof.
  intros H. induction H as [|x ws Hx H IH]; [done|].
  cbn [run_watchers]. unfold run_watcher. rewrite Hx. cbn. by rewrite IH.
Qed.

Lemma run_watchers_one v ws d w x :
  ws !! w = Some x → w_active x = true →
  (∀ i y, ws !! i = Some y → w_active y = true → i = w) →
  run_watchers v ws d =
  if bool_decide (w_oldValue x ≠ v)
  then (<[w := {| w_el := w_el x; w_active := true; w_oldValue := v |}]> ws,
        setTextContent v (w_el x) d)
  else (ws, d).
Proof.
  revert w. induction ws as [|y ws IH]; intros w Hw Hx Hone; [done|].
  destruct w as [|w]; cbn in Hw.
  - injection Hw as ->. cbn [run_watchers]. unfold run_watcher. rewrite Hx. cbn.
    assert (Forall (λ x, w_active x = false) ws) as Hidle.
    { apply Forall_lookup. intros i z Hz. destruct (w_active z) eqn:Hact; [|done].
      by specialize (Hone (S i) z Hz Hact). }
    case_bool_decide; cbn; by rewrite run_watchers_idle.
  - cbn [run_watchers]. unfold run_watcher.
    destruct (w_active y) eqn:Hy; [by specialize (Hone 0 y eq_refl Hy)|]. cbn.
    rewrite (IH w Hw Hx).
    + by case_bool_decide.
    + intros i z Hz Hact. specialize (Hone (S i) z Hz Hact). lia.
Qed.

Lemma well_formed_setTextContent v el d : well_formed d → well_formed (setTextContent v el d).
Proof.
  intros [Hn Hr]. split; [done|]. intros x Hx.
  unfold setTextContent, set_nodes. cbn [nodes]. rewrite length_alter. by apply Hr.
Qed.

Lemma created_style_found s d :
  well_formed d → the_id s ≠ "" → getElementById (the_id s) d = None →
  let el := length (nodes d) in
  let d1 := set_up_style s el (createElement "style" d).2 in
  isConnected el (createElement "style" d).2 = false ∧
  well_formed d1 ∧ getElementById (the_id s) d1 = Some el ∧ el ∈ head d1.
Proof.
  intros [Hnd Hr] Hid Hg. cbn zeta.
  set (el := length (nodes d)). set (d0 := (createElement "style" d).2).
  assert (el ∉ tree d) as Hfresh.
  { intros Hel. apply Hr in Hel. unfold el in Hel. lia. }
  assert (length (nodes d0) = S el) as Hl0.
  { unfold d0, createElement. cbn. rewrite length_app. cbn. unfold el. lia. }
  destruct (set_up_style_spec s el d0) as (Hl & Hh & He & Hi & Ho); [lia|].
  change (head d0) with (head d) in Hh. change (elsewhere d0) with (elsewhere d) in He.
  assert ((el ∉ head d) ∧ (el ∉ elsewhere d)) as [Hfh Hfe].
  { unfold tree in Hfresh. by apply not_elem_of_app in Hfresh. }
  rewrite without_absent in Hh, He by done.
  assert (tree (set_up_style s el d0) = head d ++ el :: elsewhere d) as Ht.
  { unfold tree. rewrite Hh, He. by rewrite <- app_assoc. }
  split; [|split; [|split]].
  - apply bool_decide_eq_false. done.
  - split.
    + rewrite Ht. apply NoDup_app. apply NoDup_app in Hnd as (N1 & N2 & N3).
      split; [done|]. split.
      * intros x Hx. apply not_elem_of_cons. split; [congruence|auto].
      * apply NoDup_cons. done.
    + intros x. rewrite Ht, Hl, Hl0. intros Hx.
      apply elem_of_app in Hx as [Hx|Hx].
      * assert (x < el); [|lia]. apply Hr. unfold tree. apply elem_of_app. by left.
      * apply elem_of_cons in Hx as [->|Hx]; [lia|].
        assert (x < el); [|lia]. apply Hr. unfold tree. apply elem_of_app. by right.
  - unfold getElementById in *. rewrite bool_decide_eq_false_2 in * by done.
    rewrite Ht. apply find_first.
    + apply find_none_Forall in Hg. unfold tree in Hg. apply Forall_app in Hg as [Hg _].
      apply Forall_forall. intros x Hx. rewrite Forall_forall in Hg.
      specialize (Hg x Hx). cbn in Hg.
      unfold has_id in *. rewrite Ho by congruence.
      assert (getAttribute "id" x d0 = getAttribute "id" x d) as ->; [|done].
      unfold getAttribute, d0, createElement. cbn.
      rewrite lookup_app_l; [done|]. apply Hr. unfold tree. apply elem_of_app. by left.
    + unfold has_id. by apply bool_decide_eq_true.
  - rewrite Hh. apply elem_of_app. right. by left.
Qed.

(** The state [load] leaves when it starts the watcher on [el] in [d1]. *)
Lemma watching_bound o i css ws el d1 :
  well_formed d1 → getElementById i d1 = Some el → el ∈ head d1 →
  Forall (λ x, w_active x = false) ws →
  let s' := {| document := Some (setTextContent css el d1); options := o; the_id := i;
               cssRef := css; isLoaded := true; stop := Some (length ws);
               watchers := ws ++ [ {| w_el := el; w_active := true; w_oldValue := css |} ] |} in
  bound el (length ws) s' ∧ content el s' = Some css.
Proof.
  intros Hwf Hg Hh Hidle. cbn zeta.
  assert (el < length (nodes d1)) as Hlt.
  { apply Hwf. unfold tree. apply elem_of_app. by left. }
  assert (getTextContent el (setTextContent css el d1) = Some css) as Hc
    by by apply getTextContent_setTextContent_eq.
  split; [|exact Hc].
  split; [done|]. split; [done|]. split; [|split].
  - eexists. split; [done|]. split; [by apply well_formed_setTextContent|].
    split; [|done]. cbn [the_id]. by rewrite getElementById_setTextContent.
  - eexists. cbn [watchers]. rewrite lookup_app_r, Nat.sub_diag by lia.
    split; [done|]. by repeat split.
  - intros k x. cbn [watchers]. intros Hk Hact.
    destruct (decide (k < length ws)) as [Hlt'|Hge].
    + rewrite lookup_app_l in Hk by done.
      rewrite Forall_lookup in Hidle. specialize (Hidle k x Hk). cbn in Hidle. congruence.
    + apply lookup_lt_Some in Hk. rewrite length_app in Hk. cbn in Hk. lia.
Qed.

Lemma load_binds s d :
  document s = Some d → isLoaded s = false → well_formed d → the_id s ≠ "" →
  (∀ el, getElementById (the_id s) d = Some el → el ∈ head d) →
  idle s →
  ∃ el, bound el (length (watchers s)) (load s) ∧
        content el (load s) = Some (cssRef s) ∧
        cssRef (load s) = cssRef s ∧ the_id (load s) = the_id s.
Proof.
  intros Hd Hl Hwf Hid Hhead Hidle.
  destruct (getElementById (the_id s) d) as [el|] eqn:Hg.
  - specialize (Hhead el eq_refl).
    assert (isConnected el d = true) as Hc.
    { apply bool_decide_eq_true. unfold tree. apply elem_of_app. by left. }
    exists el. unfold load. rewrite Hd, Hg, Hc.
    destruct s as [doc o i css l st ws]. cbn in *. subst.
    destruct (watching_bound o i css ws el d Hwf Hg Hhead Hidle) as [Hb Hcont].
    split; [exact Hb|]. split; [exact Hcont|]. done.
  - destruct (created_style_found s d Hwf Hid Hg) as (Hc & Hwf1 & Hg1 & Hh1).
    exists (length (nodes d)). unfold load. rewrite Hd, Hg.
    change (createElement "style" d) with (length (nodes d), (createElement "style" d).2).
    cbv beta iota. rewrite Hc. cbn [negb].
    remember (set_up_style s (length (nodes d)) (createElement "style" d).2) as d1 eqn:E.
    clear E.
    destruct s as [doc o i css l st ws]. cbn in *. subst.
    destruct (watching_bound o i css ws _ d1 Hwf1 Hg1 Hh1 Hidle) as [Hb Hcont].
    split; [exact Hb|]. split; [exact Hcont|]. done.
Qed.

Lemma flush_bound el w s :
  bound el w s →
  bound el w (flush s) ∧ content el (flush s) = Some (cssRef s) ∧
  cssRef (flush s) = cssRef s.
Proof.
  intros (Hl & Hst & (d & Hd & Hwf & Hg & Hh) & (x & Hx & Hel & Hact & Hc) & Hone).
  assert (el < length (nodes d)) as Hlt.
  { apply Hwf. unfold tree. apply elem_of_app. by left. }
  unfold flush. rewrite Hd, (run_watchers_one _ _ _ w x Hx Hact Hone).
  destruct s as [doc o i css l st ws]. cbn in *. subst.
  case_bool_decide as Hv; cbn.
  - assert (getTextContent (w_el x) (setTextContent css (w_el x) d) = Some css) as Hc'
      by by apply getTextContent_setTextContent_eq.
    split; [|done]. split; [done|]. split; [done|]. split; [|split].
    + eexists. split; [done|]. split; [by apply well_formed_setTextContent|].
      split; [|done]. cbn. by rewrite getElementById_setTextContent.
    + eexists. cbn. rewrite list_lookup_insert_eq by by eapply lookup_lt_Some.
      split; [done|]. by repeat split.
    + intros k y. cbn. intros Hk Hy. destruct (decide (k = w)) as [|Hne]; [done|].
      rewrite list_lookup_insert_ne in Hk by done. eauto.
  - assert (w_oldValue x = css) as Hv' by (by destruct (decide (w_oldValue x = css))).
    split; [|by rewrite <- Hv'].
    split; [done|]. split; [done|]. split; [by exists d|]. split; [by exists x|done].
Qed.

Lemma load_bound el w s : bound el w s → load s = s.
Proof.
  intros (Hl & Hst & (d & Hd & Hwf & Hg & Hh) & _).
  assert (isConnected el d = true) as Hc.
  { apply bool_decide_eq_true. unfold tree. apply elem_of_app. by left. }
  unfold load. rewrite Hd, Hg, Hc.
  destruct s as [doc o i css l st ws]. cbn in *. by subst.
Qed.

Lemma step_bound el w op s : bound el w s → bound el w (step op s).
Proof.
  intros Hb. destruct op as [|v|]; cbn [step].
  - by rewrite (load_bound el w).
  - exact Hb.
  - by apply flush_bound.
Qed.

Lemma run_bound el w t s : bound el w s → bound el w (run t s).
Proof.
  revert s. induction t as [|op t IH]; intros s Hb; [done|].
  unfold run. cbn [foldl]. apply IH. by apply step_bound.
Qed.

Lemma unload_bound el w s :
  bound el w s →
  (unload s).1 = returned ∧ isLoaded (unload s).2 = false ∧
  connected el (unload s).2 = false ∧ running w (unload s).2 = false ∧
  idle (unload s).2 ∧ content el (unload s).2 = content el s.
Proof.
  intros (Hl & Hst & (d & Hd & Hwf & Hg & Hh) & (x & Hx & Hel & Hact & Hc) & Hone).
  destruct s as [doc o i css l st ws]. cbn in *. subst.
  assert (unload {| document := Some d; options := o; the_id := i; cssRef := css;
                    isLoaded := true; stop := Some w; watchers := ws |} =
          (returned,
           {| document := Some {| nodes := nodes d; head := without (w_el x) (head d);
                                  elsewhere := elsewhere d |};
              options := o; the_id := i; cssRef := css; isLoaded := false; stop := Some w;
              watchers := alter (λ y, {| w_el := w_el y; w_active := false;
                                         w_oldValue := w_oldValue y |}) w ws |})) as ->.
  { unfold unload, call_stop. cbn. rewrite Hg.
    unfold head_removeChild. by rewrite bool_decide_eq_true_2 by done. }
  cbn [fst snd isLoaded watchers].
  split; [done|]. split; [done|]. split; [|split; [|split]].
  - apply bool_decide_eq_false. unfold tree. cbn [document head elsewhere].
    intros Hin. apply elem_of_app in Hin as [Hin|Hin].
    + by apply not_elem_of_without in Hin.
    + destruct Hwf as [Hnd _]. unfold tree in Hnd. apply NoDup_app in Hnd as (_ & Hnd & _).
      by apply (Hnd (w_el x)).
  - unfold running. cbn [watchers]. rewrite list_lookup_alter_eq, Hx. done.
  - unfold idle. cbn [watchers]. apply Forall_lookup. intros k y Hk.
    destruct (decide (k = w)) as [->|Hne].
    + rewrite list_lookup_alter_eq, Hx in Hk. by injection Hk as <-.
    + rewrite list_lookup_alter_ne in Hk by done.
      destruct (w_active y) eqn:Hy; [|done]. by specialize (Hone k y Hk Hy).
  - done.
Qed.

Lemma flush_idle s : idle s → flush s = s.
Proof.
  intros Hidle. unfold flush. destruct (document s) as [d|] eqn:Hd; [|done].
  rewrite run_watchers_idle by done.
  destruct s as [doc o i css l st ws]. cbn in *. by subst.
Qed.

Lemma bound_connected el w s : bound el w s → connected el s = true ∧ running w s = true.
Proof.
  intros (_ & _ & (d & Hd & _ & _ & Hh) & (x & Hx & _ & Hact & _) & _).
  unfold connected, running. rewrite Hd, Hx. split; [|done].
  apply bool_decide_eq_true. unfold tree. apply elem_of_app. by left.
Qed.

(** C8, as amended.  Take a style-tag loader with a document, not loaded,
    whose id is not empty and names no element outside head.  [load] puts
    the current css into the style element at once.  From then until [unload], whatever
    is assigned to the css ref is in the element after the next flush.
    [unload] returns normally, stops the watcher, takes the element out of
    the document and sets [isLoaded] to false; later changes of the css are
    no longer written. *)
Theorem style_follows_css_between_load_and_unload s d t :
  document s = Some d → well_formed d → isLoaded s = false → idle s →
  the_id s ≠ "" → (∀ el, getElementById (the_id s) d = Some el → el ∈ head d) →
  ∃ el w,
    content el (load s) = Some (cssRef s) ∧ connected el (load s) = true ∧
    isLoaded (load s) = true ∧ running w (load s) = true ∧
    let s1 := run t (load s) in
    (∀ v, content el (flush (set_cssRef v s1)) = Some v) ∧
    content el (flush s1) = Some (cssRef s1) ∧
    let r := unload s1 in
    r.1 = returned ∧ running w r.2 = false ∧ connected el r.2 = false ∧
    isLoaded r.2 = false ∧
    (∀ v, content el (flush (set_cssRef v r.2)) = content el r.2).
Proof.
  intros Hd Hwf Hl Hidle Hid Hhead.
  destruct (load_binds s d Hd Hl Hwf Hid Hhead Hidle) as (el & Hb & Hc & _).
  exists el, (length (watchers s)).
  destruct (bound_connected _ _ _ Hb) as [Hcon Hrun].
  split; [done|]. split; [done|]. split; [by destruct Hb|]. split; [done|].
  cbn zeta. pose proof (run_bound _ _ t _ Hb) as Hb1.
  split; [|split].
  - intros v. destruct (flush_bound _ _ _ (step_bound _ _ (SetCss v) _ Hb1)) as (_ & H & _).
    exact H.
  - destruct (flush_bound _ _ _ Hb1) as (_ & H & _). exact H.
  - destruct (unload_bound _ _ _ Hb1) as (Hr & Hl' & Hc' & Hrun' & Hidle' & _).
    split; [done|]. split; [done|]. split; [done|]. split; [done|].
    intros v. by rewrite flush_idle.
Qed.

Lemma style_follows_css_between_load_and_unload_witness :
  ∃ el w,
    content el (load sample) = Some "body{}" ∧ running w (load sample) = true ∧
    content el (flush (set_cssRef "b{}" (run [SetCss "a{}"; Flush] (load sample)))) = Some "b{}" ∧
    (unload (run [SetCss "a{}"; Flush] (load sample))).1 = returned.
Proof.
  assert (well_formed sample_document) as Hwf.
  { split; [constructor|]. intros el Hel. by apply elem_of_nil in Hel. }
  assert (idle sample) as Hidle by constructor.
  assert (the_id sample ≠ "") as Hid by (vm_compute; discriminate).
  assert (∀ el, getElementById (the_id sample) sample_document = Some el →
                el ∈ head sample_document) as Hhead.
  { intros el. vm_compute. discriminate. }
  destruct (style_follows_css_between_load_and_unload sample sample_document
              [SetCss "a{}"; Flush] eq_refl Hwf eq_refl Hidle Hid Hhead)
    as (el & w & Hc & _ & _ & Hrun & Hv & _ & Hr & _).
  exists el, w. exact (conj Hc (conj Hrun (conj (Hv "b{}") Hr))).
Defined.

(** C8, counterexample.  Without a document [load] returns at once: nothing
    is applied and nothing watches.  With a style element of the loader's
    id in the body, [load] adopts that element, but [unload] then throws
    [NotFoundError] from [head.removeChild]: the element stays in the
    document and [isLoaded] stays true.  With the empty string as id,
    [unload] finds no element and throws [TypeError], with the same
    result. *)
Lemma style_loader_may_stay_idle_or_fail_to_unload :
  (let s := load (useStyleTag "a{}" no_options None 0).1 in
   isLoaded s = false ∧ watchers s = []) ∧
  (let s := load theme in
   isLoaded s = true ∧ connected 0 s = true ∧ content 0 s = Some "a{}" ∧
   (unload s).1 = threw NotFoundError ∧
   isLoaded (unload s).2 = true ∧ connected 0 (unload s).2 = true) ∧
  (let s := load unnamed in
   isLoaded s = true ∧ connected 0 s = true ∧ content 0 s = Some "a{}" ∧
   (unload s).1 = threw TypeError ∧
   isLoaded (unload s).2 = true ∧ connected 0 (unload s).2 = true).
Proof. vm_compute. done. Qed.

End StyleTagFacts.

Module DirectiveFacts.
Import Dom Directive.

Lemma mounted_unfold el binding s :
  mounted el binding s =
  store_stop el (length (registrations s))
    (onClickOutside el (handler_of (value binding))
       match value binding with
       | function_value _ => {[ "capture" := js_bool (not_bubble binding) ]}
       | array_value _ options =>
         Object_assign {[ "capture" := js_bool (not_bubble binding) ]} options
       end s).2.
Proof. unfold mounted. by destruct (value binding). Qed.

Lemma Object_assign_lookup (target source : gmap string JsValue) k :
  Object_assign target source !! k =
  match source !! k with
  | Some v => Some v
  | None => target !! k
  end.
Proof.
  unfold Object_assign. rewrite lookup_union. by destruct (source !! k), (target !! k).
Qed.

(** C9, as amended.  [mounted] makes one new registration, for the element
    and the handler of the binding, and stores its cancellation function on
    the element.  The options of the registration have [capture] equal to
    "no bubble modifier", except that the options of a [[handler, options]]
    binding override it when they have a [capture] property of their own.
    [unmounted] then calls exactly the stored function: the registration
    made by [mounted] is cancelled, and no other. *)
Theorem mounted_registers_unmounted_cancels el binding s :
  let r := length (registrations s) in
  let s1 := mounted el binding s in
  (∃ reg, registrations s1 = registrations s ++ [reg] ∧
          r_target reg = el ∧ r_handler reg = handler_of (value binding) ∧
          r_active reg = true) ∧
  capture_of r s1 =
    match value binding with
    | function_value _ => Some (js_bool (not_bubble binding))
    | array_value _ options =>
      match options !! "capture" with
      | Some c => Some c
      | None => Some (js_bool (not_bubble binding))
      end
    end ∧
  __onClickOutside_stop s1 !! el = Some r ∧
  unmounted el s1 = (returned, cancel r s1) ∧
  stop_calls (unmounted el s1).2 = stop_calls s ++ [r] ∧
  r_active <$> registrations (unmounted el s1).2 !! r = Some false ∧
  ∀ k, k ≠ r → registrations (unmounted el s1).2 !! k = registrations s !! k.
Proof.
  cbn zeta. rewrite mounted_unfold. unfold onClickOutside, store_stop. cbn [snd fst].
  cbn [registrations __onClickOutside_stop stop_calls].
  split; [eexists; split; [done|]; by repeat split|].
  split.
  { unfold capture_of. cbn [registrations].
    rewrite lookup_app_r, Nat.sub_diag by lia. cbn.
    destruct (value binding) as [h|h options].
    - apply lookup_singleton_eq.
    - rewrite Object_assign_lookup. destruct (options !! "capture"); [done|].
      apply lookup_singleton_eq. }
  split; [apply lookup_insert_eq|].
  unfold unmounted. cbn [__onClickOutside_stop]. rewrite lookup_insert_eq.
  split; [done|]. cbn [snd]. unfold cancel. cbn [registrations stop_calls].
  split; [done|]. split.
  - rewrite list_lookup_alter_eq, lookup_app_r, Nat.sub_diag by lia. done.
  - intros k Hk. rewrite list_lookup_alter_ne by done.
    destruct (decide (k < length (registrations s))) as [Hlt|Hge].
    + by rewrite lookup_app_l.
    + rewrite !lookup_ge_None_2; [done|lia|]. rewrite length_app. cbn. lia.
Qed.

(** C9, counterexample.  No bubble modifier, but the options of the binding
    say [capture: false]: the handler is registered with [capture: false]. *)
Lemma capture_option_overrides_modifier :
  modifiers plain_with_capture_off !! "bubble" = None ∧
  capture_of 0 (mounted 0 plain_with_capture_off initial) = Some (js_bool false) ∧
  capture_of 0 (mounted 0 plain_with_capture_off initial) ≠ Some (js_bool true).
Proof. vm_compute. repeat split; congruence. Qed.

Lemma mounted_registers_unmounted_cancels_witness :
  capture_of 0 (mounted 0 bubble_function initial) = Some (js_bool false) ∧
  stop_calls (unmounted 0 (mounted 0 bubble_function initial)).2 = [0].
Proof.
  destruct (mounted_registers_unmounted_cancels 0 bubble_function initial)
    as (_ & Hc & _ & _ & Hs & _).
  exact (conj Hc Hs).
Defined.

End DirectiveFacts.

(** * Further properties of the script-tag loader *)

Module ScriptTagMore.
Import Dom Promise UseScriptTag DomFacts ScriptTagFacts.

Lemma len_when b f d :
  (∀ d, length (nodes (f d)) = length (nodes d)) →
  length (nodes (when b f d)) = length (nodes d).
Proof. intros Hf. by destruct b. Qed.

Lemma getAttribute_when_ne n x b f d :
  (∀ d, getAttribute n x (f d) = getAttribute n x d) →
  getAttribute n x (when b f d) = getAttribute n x d.
Proof. intros Hf. by destruct b. Qed.


Lemma getNonce_when x b f d :
  (∀ d, getNonce x (f d) = getNonce x d) → getNonce x (when b f d) = getNonce x d.
Proof. intros Hf. by destruct b. Qed.

(** Reading an attribute back through the assignments of [loadScript]. *)
Ltac strip :=
  repeat first
    [ rewrite getAttribute_setAttributes_notin by assumption
    | rewrite getAttribute_setAttribute_ne by (left; discriminate)
    | rewrite getAttribute_setBoolean_ne by discriminate
    | rewrite getAttribute_setNonce
    | rewrite getAttribute_when_ne
        by (intros; first [ apply getAttribute_setBoolean_ne; discriminate
                          | apply getAttribute_setNonce
                          | apply getAttribute_setAttribute_ne; left; discriminate ]) ].

Ltac len :=
  repeat first
    [ rewrite len_setAttributes
    | rewrite len_setAttribute
    | rewrite len_setBoolean
    | rewrite len_setNonce
    | rewrite len_when
        by (intros; first [ apply len_setBoolean | apply len_setNonce | apply len_setAttribute ]) ].

(** Reading the nonce slot back through them. *)
Ltac slot :=
  repeat first
    [ rewrite getNonce_setAttributes by assumption
    | rewrite getNonce_setAttribute by discriminate
    | rewrite getNonce_setBoolean by discriminate
    | rewrite getNonce_when
        by (intros; first [ apply getNonce_setBoolean; discriminate
                          | apply getNonce_setAttribute; discriminate ]) ].


Section Loader.
Variable o : UseScriptTagOptions.

Lemma created_run_handler ev h s : created (run_handler ev h s) = created s.
Proof.
  destruct h as [p|p el]; [done|]. unfold created. cbn.
  destruct (document s) as [d|]; [|done]. cbn. apply length_alter.
Qed.

Lemma created_dispatchEvent ev s : created (dispatchEvent ev s) = created s.
Proof.
  unfold dispatchEvent. generalize (List.filter (listens_to ev) (listeners s)).
  intros l. revert s. induction l as [|x l IH]; intros s; [done|].
  cbn [foldl]. by rewrite IH, created_run_handler.
Qed.

Lemma created_unload s : created (unload s).2 = created s.
Proof.
  unfold unload, created. destruct s as [doc v tag memo ps ls calls]. cbn.
  destruct doc as [d|]; [|done]. destruct tag; cbn;
    destruct (querySelector_script_src v d) as [el|]; cbn; try done;
    unfold head_removeChild; case_bool_decide; done.
Qed.

Lemma created_bound t s :
  created (run o t s) ≤
  created s + count_unloads t + (if _promise s is Some _ then 0 else 1).
Proof.
  revert s. induction t as [|op t IH]; intros s.
  - cbn. lia.
  - unfold run. cbn [foldl]. fold (run o t (step o op s)).
    specialize (IH (step o op s)).
    destruct op as [w| |ev|v]; cbn [step] in *.
    + pose proof (load_created o w s) as Hc. pose proof (load_memo o w s) as Hm.
      rewrite Hm in IH. unfold count_unloads in *. cbn [List.filter].
      destruct (_promise s); cbn in Hc; [lia|]. destruct (builds s); lia.
    + rewrite created_unload in IH. unfold count_unloads in *. cbn [List.filter length].
      destruct (_promise (unload s).2), (_promise s); lia.
    + rewrite created_dispatchEvent, dispatchEvent_memo in IH.
      unfold count_unloads in *. cbn [List.filter]. lia.
    + unfold count_unloads in *. cbn [List.filter]. exact IH.
Qed.

(** X1.  However [load], [unload], events and changes of src follow one
    another, the loader creates at most one element more than the number of
    [unload] calls; once a promise is memoised, not even that one. *)
Theorem elements_created_bounded_by_unloads t s :
  created s ≤ created (run o t s) ∧
  created (run o t s) ≤ created s + count_unloads t + 1 ∧
  (is_Some (_promise s) → created (run o t s) ≤ created s + count_unloads t).
Proof.
  pose proof (created_bound t s) as H. split; [|split].
  - clear H. revert s. induction t as [|op t IH]; intros s; [done|].
    unfold run. cbn [foldl]. fold (run o t (step o op s)).
    etrans; [|apply IH]. destruct op as [w| |ev|v]; cbn [step].
    + rewrite load_created. destruct (_ && _); lia.
    + by rewrite created_unload.
    + by rewrite created_dispatchEvent.
    + done.
  - destruct (_promise s); lia.
  - intros [p Hp]. rewrite Hp in H. lia.
Qed.

Lemma querySelector_exists v d el :
  querySelector_script_src v d = Some el → el < length (nodes d).
Proof.
  unfold querySelector_script_src. intros H. apply find_some in H as [_ H].
  unfold matches_script_src in H. destruct (nodes d !! el) eqn:He; [|done].
  by eapply lookup_lt_Some.
Qed.

Lemma nodes_run_handler ev h s d :
  document s = Some d →
  ∃ d', document (run_handler ev h s) = Some d' ∧ length (nodes d') = length (nodes d) ∧
        tree d' = tree d.
Proof.
  intros Hd. destruct h as [p|p el]; cbn; rewrite Hd; cbn.
  - by exists d.
  - eexists. split; [done|]. split; [apply length_alter|done].
Qed.

Lemma anchored_initial d v : anchored (initial d v).
Proof. intros l Hl. by apply elem_of_nil in Hl. Qed.

Lemma anchored_grow s s' :
  anchored s → listeners s' = listeners s →
  (∀ d, document s = Some d →
        ∃ d', document s' = Some d' ∧ length (nodes d) ≤ length (nodes d')) →
  anchored s'.
Proof.
  intros Ha Hl Hd l Hin. rewrite Hl in Hin. destruct (Ha l Hin) as (d & Hdoc & Hlt).
  destruct (Hd d Hdoc) as (d' & Hdoc' & Hle). exists d'. split; [done|lia].
Qed.

Lemma anchored_run_handler ev h s : anchored s → anchored (run_handler ev h s).
Proof.
  intros Ha. apply (anchored_grow s); [done|by destruct h|].
  intros d Hd. destruct (nodes_run_handler ev h s d Hd) as (d' & Hd' & Hl & _).
  exists d'. split; [done|lia].
Qed.

Lemma anchored_dispatchEvent ev s : anchored s → anchored (dispatchEvent ev s).
Proof.
  unfold dispatchEvent. generalize (List.filter (listens_to ev) (listeners s)).
  intros l. revert s. induction l as [|x l IH]; intros s Ha; [done|].
  cbn [foldl]. by apply IH, anchored_run_handler.
Qed.

Lemma anchored_unload s : anchored s → anchored (unload s).2.
Proof.
  intros Ha. apply (anchored_grow s); [done|by destruct (unload_keeps s) as (_ & -> & _)|].
  intros d Hd. unfold unload. rewrite Hd.
  destruct s as [doc v tag memo ps ls calls]. cbn in *.
  destruct tag; cbn; destruct (querySelector_script_src v d) as [el|]; cbn;
    try (by exists d); unfold head_removeChild; case_bool_decide; cbn;
    by eexists.
Qed.

Lemma anchored_load w s : anchored s → anchored (load o w s).2.
Proof.
  intros Ha. destruct (_promise s) as [p|] eqn:Hm.
  - by rewrite (load_memoised _ _ _ p).
  - rewrite load_starts by done. cbn [snd].
    pose proof (loadScript_cases o w s) as H. cbn zeta in H.
    destruct H as (_ & _ & _ & _ & H).
    intros l. cbn [listeners set__promise]. past_memo.
    destruct (document s) as [d|] eqn:Hd.
    + destruct (querySelector_script_src (src s) d) as [el|] eqn:Hq.
      * destruct H as (Hdoc & _ & _ & Hls). rewrite Hls, Hdoc. intros Hin.
        apply elem_of_app in Hin as [Hin|Hin].
        -- destruct (Ha l Hin) as (d0 & Hd0 & Hlt). exists d. split; [done|]. congruence.
        -- exists d. split; [done|]. apply querySelector_exists in Hq.
           apply list_elem_of_In in Hin. cbn in Hin.
           by destruct Hin as [<-|[<-|[<-|[]]]].
      * destruct H as (Hdoc & _ & _ & Hls). rewrite Hls, Hdoc. intros Hin.
        eexists. split; [done|]. unfold head_appendChild. cbn [nodes].
        rewrite prepare_script_nodes.
        apply elem_of_app in Hin as [Hin|Hin].
        -- destruct (Ha l Hin) as (d0 & Hd0 & Hlt). assert (d0 = d) as -> by congruence. lia.
        -- apply list_elem_of_In in Hin. cbn in Hin.
           destruct Hin as [<-|[<-|[<-|[]]]]; cbn; lia.
    + destruct H as (_ & _ & _ & Hls). rewrite Hls. intros Hin.
      destruct (Ha l Hin) as (d0 & Hd0 & _). congruence.
Qed.

Lemma anchored_step op s : anchored s → anchored (step o op s).
Proof.
  intros Ha. destruct op as [w| |ev|v]; cbn [step].
  - by apply anchored_load.
  - by apply anchored_unload.
  - by apply anchored_dispatchEvent.
  - done.
Qed.

Lemma anchored_run t s : anchored s → anchored (run o t s).
Proof.
  revert s. induction t as [|op t IH]; intros s H; [done|].
  unfold run. cbn [foldl]. apply IH. by apply anchored_step.
Qed.

Lemma loaded_handlers ev l : ∀ s el d,
  (∀ x, x ∈ l → ∃ q, l_handler x = loaded q el) →
  document s = Some d → el < length (nodes d) →
  let s' := foldl (λ s x, run_handler ev (l_handler x) s) s l in
  onLoaded_calls s' = onLoaded_calls s ++ replicate (length l) el ∧
  (∃ d', document s' = Some d' ∧ tree d' = tree d ∧
         length (nodes d') = length (nodes d) ∧
         (l ≠ [] ∨ getAttribute "data-loaded" el d = Some "true" →
          getAttribute "data-loaded" el d' = Some "true")) ∧
  (l ≠ [] ∨ scriptTag s = Some el → scriptTag s' = Some el) ∧
  ∀ p, outcome p s = Some Pending → (∃ x, x ∈ l ∧ l_handler x = loaded p el) →
       outcome p s' = Some (Fulfilled (VElement el)).
Proof.
  induction l as [|y l IH]; intros s el d Hl Hd Hlt; cbn zeta.
  - cbn. rewrite app_nil_r. split; [done|]. split.
    { exists d. repeat split; try done. by intros [|]. }
    split; [by intros [|]|]. intros p _ (x & Hx & _). by apply elem_of_nil in Hx.
  - cbn [foldl]. destruct (Hl y ltac:(left)) as [q Hq]. rewrite Hq.
    set (s1 := run_handler ev (loaded q el) s).
    assert (document s1 = Some (setAttribute "data-loaded" "true" el d)) as Hd1.
    { unfold s1. cbn. by rewrite Hd. }
    assert (length (nodes (setAttribute "data-loaded" "true" el d)) = length (nodes d)) as Hl1.
    { unfold setAttribute, set_nodes. cbn. apply length_alter. }
    destruct (IH s1 el _ ltac:(intros x Hx; apply Hl; by right) Hd1 ltac:(lia))
      as (Hcalls & (d' & Hd' & Ht' & Hn' & Ha') & Htag & Hout).
    split; [|split; [|split]].
    + rewrite Hcalls. unfold s1. cbn. by rewrite <- app_assoc.
    + exists d'. split; [done|]. split; [done|]. split; [lia|]. intros _.
      apply Ha'. right. by apply getAttribute_setAttribute_eq.
    + intros _. apply Htag. by right.
    + intros p Hp (x & Hx & Hxp). destruct (decide (q = p)) as [->|Hne].
      * destruct (handlers_promises ev l s1 p) as (_ & _ & Hk).
        apply Hk; [|done]. unfold outcome, s1. cbn. by apply settle_pending.
      * apply Hout.
        -- unfold outcome, s1. cbn. unfold resolve. by rewrite settle_other.
        -- apply elem_of_cons in Hx as [->|Hx]; [congruence|]. eauto.
Qed.

Lemma load_event_on_pending d v t p :
  let s := run o t (initial d v) in
  outcome p s = Some Pending →
  ∃ el n, attached p el ⊆ listeners s ∧ 0 < n ∧
    let s' := dispatchEvent {| ev_type := load_event; ev_target := el |} s in
    outcome p s' = Some (Fulfilled (VElement el)) ∧
    scriptTag s' = Some el ∧
    onLoaded_calls s' = onLoaded_calls s ++ replicate n el ∧
    (∃ d', document s' = Some d' ∧ getAttribute "data-loaded" el d' = Some "true") ∧
    _promise s' = _promise s.
Proof.
  cbn zeta. intros Hpend. set (s := run o t (initial d v)) in *.
  destruct (wired_run o t _ (wired_initial d v)) as [Hf Hw]. fold s in Hf, Hw.
  pose proof (anchored_run t _ (anchored_initial d v)) as Ha. fold s in Ha.
  destruct (Hw p Hpend) as [el Hel].
  set (mine := {| l_target := el; l_type := load_event; l_handler := loaded p el |}).
  assert (mine ∈ listeners s) as Hmine.
  { apply Hel. unfold attached. apply list_elem_of_In. cbn. auto. }
  destruct (Ha mine Hmine) as (d0 & Hd0 & Hlt). cbn in Hlt.
  set (ev := {| ev_type := load_event; ev_target := el |}).
  assert (mine ∈ List.filter (listens_to ev) (listeners s)) as Hin.
  { apply list_elem_of_In, filter_In. split; [by apply list_elem_of_In|].
    by apply bool_decide_eq_true. }
  exists el, (length (List.filter (listens_to ev) (listeners s))).
  split; [done|]. split.
  { destruct (List.filter (listens_to ev) (listeners s)); [by apply elem_of_nil in Hin|].
    cbn. lia. }
  destruct (loaded_handlers ev (List.filter (listens_to ev) (listeners s)) s el d0)
    as (Hcalls & (d' & Hd' & _ & _ & Hattr) & Htag & Hout); [|done|done|].
  { intros x Hx. apply list_elem_of_In, filter_In in Hx as [Hx Hev].
    apply bool_decide_eq_true in Hev as [Hxt Hxty]. cbn in Hxt, Hxty.
    rewrite Forall_forall in Hf. specialize (Hf x (proj2 (list_elem_of_In _ _) Hx)).
    unfold well_attached in Hf. destruct (l_handler x) as [q|q e].
    - congruence.
    - destruct Hf as [_ Hf]. exists q. congruence. }
  assert (List.filter (listens_to ev) (listeners s) ≠ []) as Hne.
  { intros E. rewrite E in Hin. by apply elem_of_nil in Hin. }
  split; [apply Hout; [done|by exists mine]|].
  split; [apply Htag; by left|]. split; [done|].
  split; [exists d'; split; [done|apply Hattr; by left]|].
  apply dispatchEvent_memo.
Qed.


Lemma document_stays_step op s d :
  document s = Some d → ∃ d', document (step o op s) = Some d'.
Proof.
  intros Hd. destruct op as [w| |ev|v]; cbn [step].
  - destruct (_promise s) as [p|] eqn:Hm.
    + rewrite (load_memoised _ _ _ p) by done. by exists d.
    + rewrite load_starts by done. cbn [snd]. past_memo.
      pose proof (loadScript_cases o w s) as H. cbn zeta in H.
      destruct H as (_ & _ & _ & _ & H). rewrite Hd in H.
      destruct (querySelector_script_src (src s) d); destruct H as (-> & _); by eexists.
  - unfold unload. rewrite Hd. destruct s as [doc v tag memo ps ls calls]. cbn in *.
    destruct tag; cbn; destruct (querySelector_script_src v d) as [el|]; cbn;
      try (by exists d); unfold head_removeChild; case_bool_decide; cbn; by eexists.
  - unfold dispatchEvent. generalize (List.filter (listens_to ev) (listeners s)).
    intros l. revert s d Hd. induction l as [|x l IH]; intros s d Hd; [by exists d|].
    cbn [foldl]. destruct (nodes_run_handler ev (l_handler x) s d Hd) as (d' & Hd' & _).
    by eapply IH.
  - by exists d.
Qed.

Lemma document_stays_run t s d :
  document s = Some d → ∃ d', document (run o t s) = Some d'.
Proof.
  revert s d. induction t as [|op t IH]; intros s d Hd; [by exists d|].
  unfold run. cbn [foldl]. destruct (document_stays_step op s d Hd) as [d' Hd'].
  by eapply IH.
Qed.

(** X3.  [unload] does not retract a load that is under way.  With a
    document, in any reachable state with a pending promise: after [unload]
    the promise is still pending and its listeners are still attached, though
    the memoised promise and [scriptTag] are cleared.  When the script then
    fires load, the old promise is fulfilled and [scriptTag] is set to that
    element again, while nothing is memoised. *)
Theorem unload_leaves_pending_load_running d v t p :
  let s := run o t (initial (Some d) v) in
  outcome p s = Some Pending →
  let s1 := (unload s).2 in
  outcome p s1 = Some Pending ∧ listeners s1 = listeners s ∧
  _promise s1 = None ∧ scriptTag s1 = None ∧
  ∃ el,
    let s2 := dispatchEvent {| ev_type := load_event; ev_target := el |} s1 in
    attached p el ⊆ listeners s ∧
    outcome p s2 = Some (Fulfilled (VElement el)) ∧
    scriptTag s2 = Some el ∧ _promise s2 = None.
Proof.
  cbn zeta. intros Hpend.
  destruct (document_stays_run t (initial (Some d) v) d eq_refl) as [d1 Hd1].
  destruct (unload_resets _ d1 Hd1) as [Hm Htag].
  destruct (unload_keeps (run o t (initial (Some d) v))) as (Hps & Hls & _).
  assert (outcome p (unload (run o t (initial (Some d) v))).2 = Some Pending) as Hpend'.
  { unfold outcome. by rewrite Hps. }
  split; [done|]. split; [done|]. split; [done|]. split; [done|].
  assert ((unload (run o t (initial (Some d) v))).2 =
          run o (t ++ [Unload]) (initial (Some d) v)) as E.
  { unfold run. by rewrite foldl_app. }
  rewrite E in Hpend'.
  destruct (load_event_on_pending (Some d) v (t ++ [Unload]) p Hpend')
    as (el & n & Hel & _ & Ho & Ht & _ & _ & Hmm).
  rewrite <- E in *. exists el. rewrite Hls in Hel.
  split; [done|]. split; [done|]. split; [done|]. by rewrite Hmm.
Qed.

Lemma prepare_script_attributes v d :
  carries o v (length (nodes d)) (prepare_script o v d).2.
Proof.
  unfold carries, lowered_names, attr_names, prepare_script, createElement, hasAttribute.
  cbn [fst snd].
  set (d0 := set_nodes (nodes d ++ [ {| localName := "script"; attributes := ∅;
                                         textContent := ""; cryptographicNonce := "" |} ]) d).
  assert (length (nodes d0) = S (length (nodes d))) as Hl0.
  { unfold d0. cbn. rewrite length_app. cbn. lia. }
  assert (∀ n, getAttribute n (length (nodes d)) d0 = None) as Hbase.
  { intros n. apply (getAttribute_createElement n "script" d). }
  assert (getNonce (length (nodes d)) d0 = Some "") as Hslot.
  { apply (getNonce_createElement "script" d). }
  split; [|split; [|split; [|split; [|split; [|split; [|split; [|split]]]]]]].
  - intros n u Hnd Hin _. apply getAttribute_setAttributes_in; [done|done|].
    destruct (crossOrigin o), (referrerPolicy o), (nonce o); len; lia.
  - intros Hn. destruct (crossOrigin o), (referrerPolicy o), (nonce o); strip;
      (apply getAttribute_setAttribute_eq; len; lia).
  - intros Hn. destruct (crossOrigin o), (referrerPolicy o), (nonce o); strip;
      (apply getAttribute_setAttribute_eq; len; lia).
  - intros Hn. destruct (crossOrigin o), (referrerPolicy o), (nonce o); strip;
      (destruct (async o); cbn [setBoolean];
       [rewrite getAttribute_setAttribute_eq by (len; lia); done
       |rewrite getAttribute_removeAttribute_eq; done]).
  - intros Hn. destruct (crossOrigin o), (referrerPolicy o), (nonce o); strip;
      (destruct (default false (defer o)); cbn [when setBoolean];
       [rewrite getAttribute_setAttribute_eq by (len; lia); done
       |strip; rewrite Hbase; done]).
  - intros Hn. destruct (crossOrigin o), (referrerPolicy o), (nonce o); strip;
      (destruct (default false (noModule o)); cbn [when setBoolean];
       [rewrite getAttribute_setAttribute_eq by (len; lia); done
       |strip; rewrite Hbase; done]).
  - intros Hn. destruct (crossOrigin o), (referrerPolicy o), (nonce o); strip;
      first [ rewrite getAttribute_setAttribute_eq by (len; lia); done
            | rewrite Hbase; done ].
  - intros Hn. destruct (crossOrigin o), (referrerPolicy o), (nonce o); strip;
      first [ rewrite getAttribute_setAttribute_eq by (len; lia); done
            | rewrite Hbase; done ].
  - intros Hn. split.
    { destruct (crossOrigin o), (referrerPolicy o), (nonce o); strip; rewrite Hbase; done. }
    rewrite getNonce_setAttributes by done. destruct (nonce o) as [n|]; cbn [default].
    + unfold truthy. case_bool_decide as Hn'; cbn [when].
      * apply getNonce_setNonce. destruct (crossOrigin o), (referrerPolicy o); len; lia.
      * assert (n = "") as -> by (by destruct (decide (n = ""))).
        destruct (crossOrigin o), (referrerPolicy o); slot; exact Hslot.
    + destruct (crossOrigin o), (referrerPolicy o); slot; exact Hslot.
Qed.


Lemma prepare_script_old v d i :
  i < length (nodes d) → nodes (prepare_script o v d).2 !! i = nodes d !! i.
Proof.
  intros Hi. destruct (prepare_script_touches o v d) as (_ & _ & _ & Ho & _).
  rewrite Ho by lia. unfold createElement. cbn. by rewrite lookup_app_l.
Qed.

Lemma prepare_script_tree v d :
  head (prepare_script o v d).2 = head d ∧ elsewhere (prepare_script o v d).2 = elsewhere d.
Proof. by destruct (prepare_script_touches o v d) as (_ & -> & -> & _). Qed.

Lemma matches_old v v' d i :
  i < length (nodes d) →
  matches_script_src v' (head_appendChild (length (nodes d)) (prepare_script o v d).2) i =
  matches_script_src v' d i.
Proof.
  intros Hi. unfold matches_script_src, head_appendChild. cbn [nodes].
  by rewrite prepare_script_old.
Qed.

Lemma matches_new v v' d :
  "src" ∉ lowered_names o →
  matches_script_src v' (head_appendChild (length (nodes d)) (prepare_script o v d).2)
    (length (nodes d)) = bool_decide (v' = v).
Proof.
  intros Hn. destruct (prepare_script_attributes v d) as (_ & Hsrc & _).
  specialize (Hsrc Hn). destruct (prepare_script_is_script o v d) as (e & He & Hname).
  unfold matches_script_src, head_appendChild. cbn [nodes]. rewrite He.
  unfold getAttribute in Hsrc. rewrite He in Hsrc. cbn in Hsrc. rewrite Hsrc, Hname.
  apply bool_decide_ext. split; [intros [_ [= ->]]; done|intros ->; done].
Qed.

Lemma filter_matches_old v v' d (l : list nat) :
  (∀ i, i ∈ l → i < length (nodes d)) →
  List.filter (matches_script_src v'
     (head_appendChild (length (nodes d)) (prepare_script o v d).2)) l =
  List.filter (matches_script_src v' d) l.
Proof.
  intros Hl. induction l as [|i l IH]; [done|]. cbn [List.filter].
  rewrite matches_old by (apply Hl; left). rewrite IH; [done|].
  intros j Hj. apply Hl. by right.
Qed.

(** The tree and the matches after a new script was appended. *)
Lemma appended_script v d :
  well_formed d → "src" ∉ lowered_names o →
  let el := length (nodes d) in
  let d' := head_appendChild el (prepare_script o v d).2 in
  head d' = head d ++ [el] ∧ elsewhere d' = elsewhere d ∧ well_formed d' ∧
  ∀ v', matching v' d' =
        List.filter (matches_script_src v' d) (head d) ++
        (if bool_decide (v' = v) then [el] else []) ++
        List.filter (matches_script_src v' d) (elsewhere d).
Proof.
  intros [Hnd Hr] Hn. cbn zeta. set (el := length (nodes d)).
  destruct (prepare_script_tree v d) as [Hh He].
  assert (el ∉ tree d) as Hfresh.
  { intros Hel. apply Hr in Hel. unfold el in Hel. lia. }
  assert ((el ∉ head d) ∧ (el ∉ elsewhere d)) as [Hfh Hfe].
  { unfold tree in Hfresh. by apply not_elem_of_app in Hfresh. }
  assert (head (head_appendChild el (prepare_script o v d).2) = head d ++ [el]) as Hh'.
  { unfold head_appendChild. cbn [head]. by rewrite Hh, without_absent. }
  assert (elsewhere (head_appendChild el (prepare_script o v d).2) = elsewhere d) as He'.
  { unfold head_appendChild. cbn [elsewhere]. by rewrite He, without_absent. }
  split; [done|]. split; [done|]. split; [split|].
  - unfold tree. rewrite Hh', He', <- app_assoc.
    apply NoDup_app in Hnd as (N1 & N2 & N3). apply NoDup_app.
    split; [done|]. split.
    + intros x Hx. apply not_elem_of_cons. split; [congruence|auto].
    + by apply NoDup_cons.
  - intros x. unfold tree. rewrite Hh', He'.
    change (nodes (head_appendChild el (prepare_script o v d).2))
      with (nodes (prepare_script o v d).2).
    rewrite prepare_script_nodes. intros Hx.
    assert (x = el ∨ x ∈ tree d) as [->|Hx'].
    { unfold tree. set_unfold. tauto. }
    + unfold el. lia.
    + apply Hr in Hx'. lia.
  - intros v'. unfold matching, tree. rewrite Hh', He'. subst el.
    rewrite !List.filter_app. cbn [List.filter].
    rewrite !filter_matches_old.
    + rewrite (matches_new v v' d Hn). by rewrite <- app_assoc.
    + intros i Hi. apply Hr. unfold tree. apply elem_of_app. by right.
    + intros i Hi. apply Hr. unfold tree. apply elem_of_app. by left.
Qed.

Lemma unload_removes s d el d' :
  document s = Some d → querySelector_script_src (src s) d = Some el →
  head_removeChild el d = Some d' →
  (unload s).1 = returned ∧ document (unload s).2 = Some d'.
Proof.
  intros Hd Hq Hr. unfold unload. rewrite Hd.
  destruct s as [doc v tag memo ps ls calls]. cbn in *.
  by destruct tag; cbn; rewrite Hq, Hr.
Qed.

Lemma load_src w s : src (load o w s).2 = src s.
Proof.
  destruct (_promise s) as [p|] eqn:Hm.
  - by rewrite (load_memoised _ _ _ p).
  - rewrite load_starts by done. cbn [snd].
    pose proof (loadScript_cases o w s) as H. cbn zeta in H.
    destruct H as (_ & _ & Hs & _). exact Hs.
Qed.

(** X6.  Round trip.  Take a well-formed document without a script for this
    src, nothing memoised, a src that is [selector_safe], and custom
    attributes with plain names none of which is src in any case.  After
    [load] the lookup by src finds the new element; [unload] then returns
    normally and the tree of the document is as before [load], with no script
    for this src, and the loader's cells are back at their defaults. *)
Theorem load_then_unload_restores_document w s d :
  document s = Some d → well_formed d → _promise s = None →
  selector_safe (src s) = true → forallb plain_name (attr_names o) = true →
  "src" ∉ lowered_names o → querySelector_script_src (src s) d = None →
  let s1 := (load o w s).2 in
  (∃ d1, document s1 = Some d1 ∧
         querySelector_script_src (src s) d1 = Some (length (nodes d))) ∧
  (unload s1).1 = returned ∧
  (∃ d2, document (unload s1).2 = Some d2 ∧ head d2 = head d ∧
         elsewhere d2 = elsewhere d ∧ querySelector_script_src (src s) d2 = None) ∧
  _promise (unload s1).2 = None ∧ scriptTag (unload s1).2 = None.
Proof.
  intros Hd Hwf Hm _ _ Hn Hq. cbn zeta.
  set (el := length (nodes d)).
  set (d1 := head_appendChild el (prepare_script o (src s) d).2).
  assert (document (load o w s).2 = Some d1) as Hd1.
  { rewrite load_starts by done. cbn [snd]. past_memo.
    pose proof (loadScript_cases o w s) as H. cbn zeta in H.
    destruct H as (_ & _ & _ & _ & H). rewrite Hd, Hq in H. by destruct H as (-> & _). }
  destruct (appended_script (src s) d Hwf Hn) as (Hh & He & Hwf1 & Hmatch).
  fold el d1 in Hh, He, Hwf1, Hmatch.
  assert (matching (src s) d = []) as Hnone.
  { rewrite querySelector_matching in Hq. by destruct (matching (src s) d). }
  unfold matching, tree in Hnone. rewrite List.filter_app in Hnone.
  apply app_eq_nil in Hnone as [Hn1 Hn2].
  assert (querySelector_script_src (src s) d1 = Some el) as Hq1.
  { rewrite querySelector_matching, Hmatch, Hn1, Hn2.
    by rewrite bool_decide_eq_true_2. }
  assert (el ∉ head d) as Hfresh.
  { intros Hel. destruct Hwf as [_ Hr]. specialize (Hr el). unfold tree in Hr.
    assert (el < length (nodes d)); [|unfold el in *; lia].
    apply Hr. apply elem_of_app. by left. }
  set (d2 := {| nodes := nodes d1; head := without el (head d1); elsewhere := elsewhere d1 |}).
  assert (head_removeChild el d1 = Some d2) as Hrm.
  { unfold head_removeChild. rewrite bool_decide_eq_true_2; [done|].
    rewrite Hh. apply elem_of_app. right. by left. }
  destruct (unload_removes (load o w s).2 d1 el d2 Hd1) as [Hret Hd2]; [|done|].
  { by rewrite load_src. }
  destruct (unload_resets _ d1 Hd1) as [Hmemo Htag].
  split; [by exists d1|]. split; [done|]. split; [|done].
  exists d2. split; [done|].
  assert (head d2 = head d) as Hh2.
  { unfold d2. cbn [head]. rewrite Hh. unfold without.
    rewrite filter_app, filter_cons_False, filter_nil, app_nil_r by (intros ?; done).
    by apply without_absent. }
  split; [done|]. split; [by rewrite <- He|].
  rewrite querySelector_matching. unfold matching, tree. rewrite Hh2.
  change (elsewhere d2) with (elsewhere d1). rewrite He.
  change (matches_script_src (src s) d2) with (matches_script_src (src s) d1).
  unfold d1, el. rewrite List.filter_app, !filter_matches_old.
  - by rewrite Hn1, Hn2.
  - intros i Hi. apply Hwf. unfold tree. apply elem_of_app. by right.
  - intros i Hi. apply Hwf. unfold tree. apply elem_of_app. by left.
Qed.

Lemma matches_setAttribute m u el v d x :
  m ≠ "src" → matches_script_src v (setAttribute m u el d) x = matches_script_src v d x.
Proof.
  intros Hm. unfold matches_script_src, setAttribute, set_nodes. cbn [nodes].
  destruct (decide (x = el)) as [->|Hx].
  - rewrite list_lookup_alter_eq. destruct (nodes d !! el) as [e|]; [|done]. cbn.
    by rewrite lookup_insert_ne.
  - by rewrite list_lookup_alter_ne by congruence.
Qed.

Lemma tidy_marked el s :
  tidy s → tidy (set_document (setAttribute "data-loaded" "true" el <$> document s) s).
Proof.
  intros (d & Hd & [Hnd Hr] & Hu). unfold tidy. cbn. rewrite Hd. cbn.
  eexists. split; [done|]. split; [split|].
  - done.
  - intros x Hx. rewrite len_setAttribute. by apply Hr.
  - intros v. specialize (Hu v). unfold matching in *.
    change (tree (setAttribute "data-loaded" "true" el d)) with (tree d).
    erewrite filter_ext; [exact Hu|]. intros x. by apply matches_setAttribute.
Qed.

Lemma tidy_run_handler ev h s : tidy s → tidy (run_handler ev h s).
Proof.
  intros Ht. destruct h as [p|p el]; [exact Ht|].
  apply (tidy_marked el) in Ht. exact Ht.
Qed.

Lemma tidy_dispatchEvent ev s : tidy s → tidy (dispatchEvent ev s).
Proof.
  unfold dispatchEvent. generalize (List.filter (listens_to ev) (listeners s)).
  intros l. revert s. induction l as [|x l IH]; intros s Ht; [done|].
  cbn [foldl]. by apply IH, tidy_run_handler.
Qed.

Lemma filter_without_length (f : nat → bool) el (l : list nat) :
  length (List.filter f (without el l)) ≤ length (List.filter f l).
Proof.
  unfold without. induction l as [|x l IH]; [done|].
  destruct (decide (x = el)) as [->|Hx].
  - rewrite filter_cons_False by (intros ?; done). cbn. destruct (f el); cbn; lia.
  - rewrite filter_cons_True by done. cbn. destruct (f x); cbn; lia.
Qed.

Lemma tidy_removed v ps ls calls el d :
  well_formed d → unique_scripts d →
  tidy {| document := Some {| nodes := nodes d; head := without el (head d);
                              elsewhere := elsewhere d |};
          src := v; scriptTag := None; _promise := None;
          promises := ps; listeners := ls; onLoaded_calls := calls |}.
Proof.
  intros [Hnd Hr] Hu. eexists. split; [done|]. split; [split|].
  - unfold tree in *. cbn. apply NoDup_app in Hnd as (N1 & N2 & N3).
    apply NoDup_app. split; [by apply NoDup_filter|]. split; [|done].
    intros x Hx. apply N2. unfold without in Hx. by apply list_elem_of_filter in Hx as [_ Hx].
  - intros x Hx. cbn. apply Hr. unfold tree in *. cbn in Hx.
    apply elem_of_app in Hx as [Hx|Hx]; apply elem_of_app; [left|by right].
    unfold without in Hx. by apply list_elem_of_filter in Hx as [_ Hx].
  - intros v'. specialize (Hu v'). unfold matching, tree in *. cbn [head elsewhere].
    rewrite List.filter_app, length_app in *.
    pose proof (filter_without_length
                  (matches_script_src v' {| nodes := nodes d; head := without el (head d);
                                            elsewhere := elsewhere d |}) el (head d)) as Hle.
    change (matches_script_src v' {| nodes := nodes d; head := without el (head d);
                                     elsewhere := elsewhere d |})
      with (matches_script_src v' d) in *. lia.
Qed.

Lemma tidy_unload s : tidy s → tidy (unload s).2.
Proof.
  intros (d & Hd & Hwf & Hu). unfold unload. rewrite Hd.
  destruct s as [doc v tag memo ps ls calls]. cbn in *. subst.
  assert (tidy {| document := Some d; src := v; scriptTag := None; _promise := None;
                  promises := ps; listeners := ls; onLoaded_calls := calls |}) as Hsame.
  { exists d. split; [done|]. by split. }
  destruct tag; cbn; (destruct (querySelector_script_src v d) as [el|]; [|exact Hsame]);
    unfold head_removeChild; (case_bool_decide; [|exact Hsame]);
    by apply tidy_removed.
Qed.

Lemma tidy_load w s : "src" ∉ lowered_names o → tidy s → tidy (load o w s).2.
Proof.
  intros Hn (d & Hd & Hwf & Hu). destruct (_promise s) as [p|] eqn:Hm.
  - rewrite (load_memoised _ _ _ p) by done. by exists d.
  - rewrite load_starts by done. cbn [snd]. unfold tidy. past_memo.
    pose proof (loadScript_cases o w s) as H. cbn zeta in H.
    destruct H as (_ & _ & _ & _ & H). rewrite Hd in H.
    destruct (querySelector_script_src (src s) d) as [el|] eqn:Hq.
    + destruct H as (-> & _). by exists d.
    + destruct H as (-> & _). eexists. split; [done|].
      destruct (appended_script (src s) d Hwf Hn) as (_ & _ & Hwf1 & Hmatch).
      split; [done|]. intros v'. rewrite Hmatch. specialize (Hu v').
      unfold matching, tree in Hu. rewrite List.filter_app, length_app in Hu.
      case_bool_decide as Hv; [subst v'|].
      * rewrite querySelector_matching in Hq. unfold matching, tree in Hq.
        rewrite List.filter_app in Hq.
        destruct (List.filter (matches_script_src (src s) d) (head d)); [|done].
        destruct (List.filter (matches_script_src (src s) d) (elsewhere d)); [|done].
        cbn. lia.
      * rewrite !length_app. cbn. lia.
Qed.

Lemma tidy_step op s : "src" ∉ lowered_names o → tidy s → tidy (step o op s).
Proof.
  intros Hn Ht. destruct op as [w| |ev|v]; cbn [step].
  - by apply tidy_load.
  - by apply tidy_unload.
  - by apply tidy_dispatchEvent.
  - exact Ht.
Qed.

(** X7.  No duplicate injection.  Let the custom attributes have plain
    names none of which is src in any case, and let the src be
    [selector_safe] now and after every change in the history.  If the
    document starts out well formed with no two scripts sharing a src, it
    stays so under every history of [load], [unload], events and changes of
    src. *)
Theorem scripts_stay_unique t s :
  forallb plain_name (attr_names o) = true → "src" ∉ lowered_names o →
  selector_safe (src s) = true → safe_history t = true →
  tidy s → tidy (run o t s).
Proof.
  intros _ Hn _ _. revert s. induction t as [|op t IH]; intros s Ht; [done|].
  unfold run. cbn [foldl]. apply IH. by apply tidy_step.
Qed.


Lemma separate_initial d v : separate (initial d v).
Proof. split; [intros l Hl|intros l1 l2 Hl]; by apply elem_of_nil in Hl. Qed.

Lemma separate_run_handler ev h s : separate s → separate (run_handler ev h s).
Proof.
  intros [Hb Hs]. destruct h as [p|p el]; split; cbn; try done;
    intros l Hl; unfold reject, resolve; rewrite settle_length; by apply Hb.
Qed.

Lemma separate_dispatchEvent ev s : separate s → separate (dispatchEvent ev s).
Proof.
  unfold dispatchEvent. generalize (List.filter (listens_to ev) (listeners s)).
  intros l. revert s. induction l as [|x l IH]; intros s Hs; [done|].
  cbn [foldl]. by apply IH, separate_run_handler.
Qed.

Lemma separate_load w s : separate s → separate (load o w s).2.
Proof.
  intros [Hb Hs]. destruct (_promise s) as [p|] eqn:Hm.
  - by rewrite (load_memoised _ _ _ p).
  - rewrite load_starts by done. cbn [snd].
    pose proof (loadScript_cases o w s) as H. cbn zeta in H.
    destruct H as (_ & _ & _ & _ & H).
    assert (∃ x l, promises (loadScript o w s).2 = promises s ++ [x] ∧
                   listeners (loadScript o w s).2 = listeners s ++ l ∧
                   ∃ el, ∀ y, y ∈ l → promise_of (l_handler y) = length (promises s) ∧
                                      l_target y = el) as (x & l & Hps & Hls & el & Hl).
    { destruct (document s) as [d|].
      - destruct (querySelector_script_src (src s) d) as [el|];
          destruct H as (_ & Hps & _ & Hls); eexists _, _; (split; [exact Hps|]);
          (split; [exact Hls|]); eexists; intros y Hy;
          apply list_elem_of_In in Hy; cbn in Hy;
          destruct Hy as [<-|[<-|[<-|[]]]]; done.
      - destruct H as (_ & Hps & _ & Hls). exists (Fulfilled VFalse), [].
        split; [done|]. split; [by rewrite app_nil_r|]. exists 0.
        intros y Hy. by apply elem_of_nil in Hy. }
    split; cbn [listeners promises set__promise]; rewrite ?Hps, ?Hls.
    + intros y Hy. rewrite length_app. cbn. apply elem_of_app in Hy as [Hy|Hy].
      * specialize (Hb y Hy). lia.
      * destruct (Hl y Hy) as [-> _]. lia.
    + intros l1 l2 H1 H2 E.
      apply elem_of_app in H1 as [H1|H1]; apply elem_of_app in H2 as [H2|H2].
      * by apply Hs.
      * specialize (Hb l1 H1). destruct (Hl l2 H2) as [E2 _]. lia.
      * specialize (Hb l2 H2). destruct (Hl l1 H1) as [E1 _]. lia.
      * destruct (Hl l1 H1) as [_ ->]. by destruct (Hl l2 H2) as [_ ->].
Qed.

Lemma separate_step op s : separate s → separate (step o op s).
Proof.
  intros Hs. destruct op as [w| |ev|v]; cbn [step].
  - by apply separate_load.
  - destruct (unload_keeps s) as (Hps & Hls & _). destruct Hs as [Hb Hs].
    split; rewrite ?Hps, Hls; done.
  - by apply separate_dispatchEvent.
  - done.
Qed.

Lemma separate_run t s : separate s → separate (run o t s).
Proof.
  revert s. induction t as [|op t IH]; intros s H; [done|].
  unfold run. cbn [foldl]. apply IH. by apply separate_step.
Qed.

Lemma other_handlers ev l s p :
  (∀ x, x ∈ l → promise_of (l_handler x) ≠ p) →
  outcome p (foldl (λ s x, run_handler ev (l_handler x) s) s l) = outcome p s.
Proof.
  revert s. induction l as [|y l IH]; intros s Hl; [done|].
  cbn [foldl]. rewrite IH by (intros x Hx; apply Hl; by right).
  specialize (Hl y ltac:(left)). unfold outcome.
  destruct (l_handler y) as [q|q e]; cbn in *; unfold reject, resolve;
    by rewrite settle_other.
Qed.

(** X18.  A pending load settles only through its own script element.  In
    any reachable state, a pending promise stays pending under [load],
    [unload], a change of src, and every event fired at any other element
    than the one its listeners sit on. *)
Theorem pending_until_own_event d v t p el op :
  let s := run o t (initial d v) in
  outcome p s = Some Pending → attached p el ⊆ listeners s →
  (∀ ev, op = Dispatch ev → ev_target ev ≠ el) →
  outcome p (step o op s) = Some Pending.
Proof.
  cbn zeta. intros Hpend Hel Hop. set (s := run o t (initial d v)) in *.
  destruct (separate_run t _ (separate_initial d v)) as [_ Hsep]. fold s in Hsep.
  destruct op as [w| |ev|u]; cbn [step].
  - destruct (_promise s) as [q|] eqn:Hm.
    + by rewrite (load_memoised _ _ _ q).
    + rewrite load_starts by done. cbn [snd]. past_memo.
      destruct (loadScript_promises o w s) as (x & Hps & _).
      unfold outcome in *. rewrite Hps, lookup_app_l; [done|]. by eapply lookup_lt_Some.
  - unfold outcome. by destruct (unload_keeps s) as (-> & _).
  - unfold dispatchEvent. rewrite other_handlers; [done|].
    intros x Hx E. apply list_elem_of_In, filter_In in Hx as [Hx Hev].
    apply bool_decide_eq_true in Hev as [Hxt _].
    apply (Hop ev eq_refl). rewrite <- Hxt.
    set (mine := {| l_target := el; l_type := load_event; l_handler := loaded p el |}).
    assert (mine ∈ listeners s) as Hmine.
    { apply Hel. unfold attached. apply list_elem_of_In. cbn. auto. }
    apply (Hsep x mine); [by apply list_elem_of_In|done|done].
  - done.
Qed.

End Loader.

(** Membership in a list of distinct literals. *)
Ltac absent :=
  let H := fresh in
  intros H; repeat (apply elem_of_cons in H as [H|H]; [discriminate|]);
  by apply elem_of_nil in H.

Lemma elements_created_bounded_by_unloads_witness :
  created (run default_options [Load true; Unload; Load false; Load true] fresh) ≤ 2.
Proof.
  destruct (elements_created_bounded_by_unloads default_options
              [Load true; Unload; Load false; Load true] fresh) as (_ & H & _).
  exact H.
Defined.


Lemma unload_leaves_pending_load_running_witness :
  outcome 0 (unload loading).2 = Some Pending ∧ _promise (unload loading).2 = None.
Proof.
  destruct (unload_leaves_pending_load_running default_options empty_document "x.js"
              [Load true] 0 eq_refl) as (H1 & _ & H2 & _).
  exact (conj H1 H2).
Defined.


Lemma load_then_unload_restores_document_witness :
  (unload (load default_options true fresh).2).1 = returned ∧
  head <$> document (unload (load default_options true fresh).2).2 = Some [].
Proof.
  assert (well_formed empty_document) as Hwf.
  { split; [constructor|]. intros el Hel. by apply elem_of_nil in Hel. }
  destruct (load_then_unload_restores_document default_options true fresh empty_document
              eq_refl Hwf eq_refl eq_refl eq_refl ltac:(absent) eq_refl)
    as (_ & Hr & (d2 & Hd2 & Hh & _) & _).
  split; [exact Hr|]. rewrite Hd2. cbn. by rewrite Hh.
Defined.

Lemma scripts_stay_unique_witness :
  tidy (run default_options [Load true; Unload; SetSrc "y.js"; Load false] fresh).
Proof.
  apply (scripts_stay_unique default_options); [reflexivity|absent|reflexivity|reflexivity|].
  exists empty_document. split; [reflexivity|]. split.
  - split; [constructor|]. intros el Hel. by apply elem_of_nil in Hel.
  - intros v. cbn. lia.
Defined.



Lemma pending_until_own_event_witness :
  outcome 0 (dispatchEvent {| ev_type := error_event; ev_target := 5 |} loading) =
  Some Pending.
Proof.
  apply (pending_until_own_event default_options (Some empty_document) "x.js" [Load true]
           0 0 (Dispatch {| ev_type := error_event; ev_target := 5 |})).
  - reflexivity.
  - intros x Hx. exact Hx.
  - intros ev [= <-]. discriminate.
Defined.

End ScriptTagMore.

(** * Further properties of the style-tag loader *)

Module StyleTagMore.
Import Dom UseStyleTag DomFacts StyleTagFacts.

(** X9.  [load] is idempotent.  For a loader as in the style-tag theorem
    above, once [load] has run, calling it again at any later point before
    [unload] changes nothing: no second element, no second watcher. *)
Theorem load_again_changes_nothing s d t :
  document s = Some d → well_formed d → isLoaded s = false → idle s →
  the_id s ≠ "" → (∀ el, getElementById (the_id s) d = Some el → el ∈ head d) →
  load (run t (load s)) = run t (load s).
Proof.
  intros Hd Hwf Hl Hidle Hid Hhead.
  destruct (load_binds s d Hd Hl Hwf Hid Hhead Hidle) as (el & Hb & _).
  eapply load_bound, run_bound, Hb.
Qed.






Lemma the_id_load s : the_id (load s) = the_id s.
Proof.
  unfold load. destruct s as [doc o i css l st ws]. cbn.
  destruct doc as [d|]; [|done].
  destruct (getElementById i d); cbn; destruct (negb _); cbn; by destruct l.
Qed.

Lemma the_id_flush s : the_id (flush s) = the_id s.
Proof.
  unfold flush. destruct (document s); [|done]. by destruct (run_watchers _ _ _).
Qed.

Lemma the_id_run t s : the_id (run t s) = the_id s.
Proof.
  revert s. induction t as [|op t IH]; intros s; [done|].
  unfold run. cbn [foldl]. fold (run t (step op s)). rewrite IH.
  destruct op; cbn [step]; [apply the_id_load|done|apply the_id_flush].
Qed.

Lemma load_creates s d :
  document s = Some d → well_formed d → isLoaded s = false →
  getElementById (the_id s) d = None →
  document (load s) =
  Some (setTextContent (cssRef s) (length (nodes d))
          (set_up_style s (length (nodes d)) (createElement "style" d).2)).
Proof.
  intros Hd [_ Hr] Hl Hg.
  assert (isConnected (length (nodes d)) (createElement "style" d).2 = false) as Hc.
  { apply bool_decide_eq_false. intros Hin. apply Hr in Hin. lia. }
  unfold load. rewrite Hd, Hg.
  change (createElement "style" d) with (length (nodes d), (createElement "style" d).2).
  cbv beta iota. rewrite Hc. cbn [negb].
  destruct s as [doc o i css l st ws]. cbn in *. by subst.
Qed.

Lemma load_grows s d :
  document s = Some d → well_formed d → isLoaded s = false →
  getElementById (the_id s) d = None →
  grown d (length (nodes d)) (load s).
Proof.
  intros Hd Hwf Hl Hg. eexists. split; [by apply load_creates|].
  set (el := length (nodes d)). set (d0 := (createElement "style" d).2).
  assert (length (nodes d0) = S el) as Hl0.
  { unfold d0, createElement. cbn. rewrite length_app. cbn. unfold el. lia. }
  destruct (set_up_style_spec s el d0) as (Hlen & Hh & He & _ & Ho); [lia|].
  assert (el ∉ tree d) as Hfresh.
  { intros Hel. apply Hwf in Hel. unfold el in Hel. lia. }
  assert ((el ∉ head d) ∧ (el ∉ elsewhere d)) as [Hfh Hfe].
  { unfold tree in Hfresh. by apply not_elem_of_app in Hfresh. }
  change (head d0) with (head d) in Hh. change (elsewhere d0) with (elsewhere d) in He.
  rewrite without_absent in Hh, He by done.
  split; [exact Hh|]. split; [exact He|]. split.
  - unfold setTextContent, set_nodes. cbn [nodes]. rewrite length_alter. lia.
  - intros x Hx. rewrite getAttribute_setTextContent, Ho by done.
    unfold getAttribute, d0, createElement. cbn.
    destruct (decide (x < length (nodes d))) as [Hlt|Hge].
    + by rewrite lookup_app_l.
    + rewrite !lookup_ge_None_2; [done|lia|]. rewrite length_app. cbn. unfold el in Hx. lia.
Qed.

Lemma grown_setTextContent d el v s d' :
  grown d el s → document s = Some d' →
  grown d el (set_document (Some (setTextContent v el d')) s).
Proof.
  intros (d1 & Hd1 & Hh & He & Hl & Ho) Hd'. assert (d1 = d') as -> by congruence.
  eexists. split; [done|]. split; [done|]. split; [done|]. split.
  - unfold setTextContent, set_nodes. cbn [nodes]. by rewrite length_alter.
  - intros x Hx. rewrite getAttribute_setTextContent. by apply Ho.
Qed.

Lemma grown_flush d el w s : bound el w s → grown d el s → grown d el (flush s).
Proof.
  intros (Hl & Hst & (d' & Hd & Hwf & Hg & Hh) & (x & Hx & Hel & Hact & Hc) & Hone) Hgr.
  unfold flush. rewrite Hd, (run_watchers_one _ _ _ w x Hx Hact Hone).
  case_bool_decide.
  - rewrite Hel. destruct Hgr as (d1 & Hd1 & Hh1 & He1 & Hl1 & Ho1).
    assert (d1 = d') as -> by congruence.
    eexists. split; [done|]. split; [done|]. split; [done|]. split.
    + unfold setTextContent, set_nodes. cbn [nodes]. by rewrite length_alter.
    + intros y Hy. rewrite getAttribute_setTextContent. by apply Ho1.
  - destruct Hgr as (d1 & Hd1 & Hrest). exists d1. split; [|done]. cbn. congruence.
Qed.

Lemma grown_run d el w t s : bound el w s → grown d el s → grown d el (run t s).
Proof.
  revert s. induction t as [|op t IH]; intros s Hb Hg; [done|].
  unfold run. cbn [foldl]. apply IH; [by apply step_bound|].
  destruct op; cbn [step].
  - by rewrite (load_bound el w).
  - exact Hg.
  - by eapply grown_flush.
Qed.

Lemma unload_bound_document el w s d :
  bound el w s → document s = Some d →
  document (unload s).2 =
  Some {| nodes := nodes d; head := without el (head d); elsewhere := elsewhere d |}.
Proof.
  intros (Hl & Hst & (d' & Hd & Hwf & Hg & Hh) & _) Hd'.
  assert (d' = d) as -> by congruence.
  destruct s as [doc o i css l st ws]. cbn in *. subst.
  unfold unload, call_stop. cbn. rewrite Hg.
  unfold head_removeChild. by rewrite bool_decide_eq_true_2.
Qed.

Lemma the_id_unload s : the_id (unload s).2 = the_id s.
Proof.
  unfold unload, call_stop. destruct s as [doc o i css l st ws]. cbn.
  destruct doc as [d|]; [|done]. destruct l; [|done]. cbn.
  destruct st; cbn; destruct (getElementById i d) as [el|]; cbn; try done;
    unfold head_removeChild; case_bool_decide; done.
Qed.

Lemma load_binds_new s d :
  document s = Some d → isLoaded s = false → well_formed d → the_id s ≠ "" →
  getElementById (the_id s) d = None → idle s →
  bound (length (nodes d)) (length (watchers s)) (load s).
Proof.
  intros Hd Hl Hwf Hid Hg Hidle.
  destruct (created_style_found s d Hwf Hid Hg) as (Hc & Hwf1 & Hg1 & Hh1).
  unfold load. rewrite Hd, Hg.
  change (createElement "style" d) with (length (nodes d), (createElement "style" d).2).
  cbv beta iota. rewrite Hc. cbn [negb].
  remember (set_up_style s (length (nodes d)) (createElement "style" d).2) as d1 eqn:E.
  clear E.
  destruct s as [doc o i css l st ws]. cbn in *. subst.
  by destruct (watching_bound o i css ws _ d1 Hwf1 Hg1 Hh1 Hidle) as [Hb _].
Qed.

(** X11.  A whole cycle can be repeated.  Take a loader with a well-formed
    document, not loaded, no watcher running, whose non-empty id names no
    element yet.  After [load], any assignments, flushes and further loads,
    and [unload], the tree of the document is as it was before, the created
    element (still a node, now disconnected) being the only addition; no
    element carries the id, the loader is not loaded and no watcher runs.  So
    the next [load] starts from the same footing. *)
Theorem load_unload_cycle_restores s d t :
  document s = Some d → well_formed d → isLoaded s = false → idle s →
  the_id s ≠ "" → getElementById (the_id s) d = None →
  let s2 := (unload (run t (load s))).2 in
  ∃ d2, document s2 = Some d2 ∧ head d2 = head d ∧ elsewhere d2 = elsewhere d ∧
        length (nodes d2) = S (length (nodes d)) ∧ well_formed d2 ∧
        getElementById (the_id s2) d2 = None ∧
        the_id s2 = the_id s ∧ isLoaded s2 = false ∧ idle s2.
Proof.
  intros Hd Hwf Hl Hidle Hid Hg. cbn zeta.
  set (el := length (nodes d)).
  pose proof (load_binds_new s d Hd Hl Hwf Hid Hg Hidle) as Hb.
  pose proof (load_grows s d Hd Hwf Hl Hg) as Hgr. fold el in Hb, Hgr.
  pose proof (run_bound _ _ t _ Hb) as Hb1.
  pose proof (grown_run d _ _ t _ Hb Hgr) as (d1 & Hd1 & Hh1 & He1 & Hl1 & Ho1).
  destruct (unload_bound _ _ _ Hb1) as (_ & Hl2 & _ & _ & Hidle2 & _).
  pose proof (unload_bound_document _ _ _ d1 Hb1 Hd1) as Hd2.
  assert (el ∉ tree d) as Hfresh.
  { intros Hel. apply Hwf in Hel. unfold el in Hel. lia. }
  assert ((el ∉ head d) ∧ (el ∉ elsewhere d)) as [Hfh Hfe].
  { unfold tree in Hfresh. by apply not_elem_of_app in Hfresh. }
  assert (without el (head d1) = head d) as Hh2.
  { rewrite Hh1. unfold without.
    rewrite filter_app, filter_cons_False, filter_nil, app_nil_r by (intros ?; done).
    by apply without_absent. }
  eexists. split; [exact Hd2|]. cbn [head elsewhere nodes].
  split; [done|]. split; [done|]. split; [done|].
  rewrite the_id_unload, the_id_run, the_id_load.
  split; [|split; [|done]].
  - destruct Hwf as [Hnd Hr]. split.
    + unfold tree. cbn [head elsewhere]. by rewrite Hh2, He1.
    + intros x. unfold tree. cbn [head elsewhere nodes]. rewrite Hh2, He1, Hl1.
      intros Hx. specialize (Hr x Hx). lia.
  - unfold getElementById in *. rewrite bool_decide_eq_false_2 in * by done.
    unfold tree in *. cbn [head elsewhere]. rewrite Hh2, He1.
    apply find_none_Forall in Hg.
    destruct (List.find _ (head d ++ elsewhere d)) as [x|] eqn:Hf; [|done].
    apply find_some in Hf as [Hin Hx]. apply list_elem_of_In in Hin.
    rewrite Forall_forall in Hg. specialize (Hg x Hin). cbn in Hg.
    assert (getAttribute "id" x d1 = getAttribute "id" x d) as E
      by (apply Ho1; congruence).
    unfold has_id, getAttribute in *. cbn [nodes] in Hx. rewrite E in Hx. congruence.
Qed.

Lemma idle_call_stop s : idle s → idle (call_stop s).
Proof.
  intros Hidle. unfold call_stop, idle in *. destruct (stop s) as [w|]; [|done].
  cbn [watchers set_watchers]. apply Forall_lookup. intros k y Hk.
  destruct (decide (k = w)) as [->|Hne].
  - rewrite list_lookup_alter_eq in Hk. destruct (watchers s !! w); [|done].
    by injection Hk as <-.
  - rewrite list_lookup_alter_ne in Hk by done.
    rewrite Forall_lookup in Hidle. by apply (Hidle k y).
Qed.

Lemma stuck_unload d el s :
  stuck d s → getElementById (the_id s) d = Some el → el ∉ head d →
  (unload s).1 = threw NotFoundError ∧ stuck d (unload s).2.
Proof.
  intros (Hd & Hl & Hidle) Hg Hel. pose proof (idle_call_stop s Hidle) as Hidle'.
  unfold unload. rewrite Hd, Hl. cbn [negb].
  assert (the_id (call_stop s) = the_id s) as -> by (unfold call_stop; by destruct (stop s)).
  rewrite Hg. unfold head_removeChild. rewrite bool_decide_eq_false_2 by done.
  split; [done|]. cbn [snd]. unfold stuck.
  assert (document (call_stop s) = document s ∧ isLoaded (call_stop s) = isLoaded s)
    as [-> ->] by (unfold call_stop; by destruct (stop s)).
  done.
Qed.

Lemma stuck_step d el op s :
  getElementById (the_id s) d = Some el → isConnected el d = true →
  stuck d s → step op s = s ∨ ∃ v, step op s = set_cssRef v s.
Proof.
  intros Hg Hc (Hd & Hl & Hidle). destruct op as [|v|]; cbn [step].
  - left. unfold load. rewrite Hd, Hg, Hc.
    destruct s as [doc o i css l st ws]. cbn in *. by subst.
  - right. by exists v.
  - left. by apply flush_idle.
Qed.

Lemma stuck_run d el t s :
  getElementById (the_id s) d = Some el → isConnected el d = true →
  stuck d s → stuck d (run t s) ∧ the_id (run t s) = the_id s.
Proof.
  revert s. induction t as [|op t IH]; intros s Hg Hc Hs; [done|].
  unfold run. cbn [foldl]. fold (run t (step op s)).
  destruct (stuck_step d el op s Hg Hc Hs) as [->|[v ->]].
  - by apply IH.
  - destruct (IH (set_cssRef v s)) as [H1 H2]; [done|done|exact Hs|]. by split.
Qed.

(** X12.  When the element that carries the id is connected but not a child
    of head, [load] still binds it and writes the css into it, but [unload]
    stops the watcher and then throws [NotFoundError].  The loader is left
    counting as loaded with no watcher running, and stays so: every later
    [load] returns at once, later assignments to the css never reach the
    element, and [unload] throws again. *)
Theorem unload_outside_head_sticks s d el t :
  document s = Some d → well_formed d → isLoaded s = false → idle s →
  getElementById (the_id s) d = Some el → el ∉ head d →
  let s1 := load s in
  content el s1 = Some (cssRef s) ∧ isLoaded s1 = true ∧
  (unload s1).1 = threw NotFoundError ∧
  let s3 := run t (unload s1).2 in
  isLoaded s3 = true ∧ idle s3 ∧ connected el s3 = true ∧
  content el s3 = Some (cssRef s) ∧
  (unload s3).1 = threw NotFoundError.
Proof.
  intros Hd Hwf Hl Hidle Hg Hel. cbn zeta.
  assert (isConnected el d = true) as Hc.
  { unfold getElementById in Hg. case_bool_decide; [done|].
    apply find_some in Hg as [Hin _]. apply bool_decide_eq_true. by apply list_elem_of_In. }
  assert (el < length (nodes d)) as Hlt.
  { apply Hwf. by apply bool_decide_eq_true in Hc. }
  set (d1 := setTextContent (cssRef s) el d).
  assert (load s = set_isLoaded true (set_stop (Some (length (watchers s)))
            (set_watchers (watchers s ++
               [ {| w_el := el; w_active := true; w_oldValue := cssRef s |} ])
               (set_document (Some d1) s)))) as Eload.
  { unfold load. rewrite Hd, Hg, Hc.
    destruct s as [doc o i css l st ws]. cbn in *. by subst. }
  assert (getElementById (the_id s) d1 = Some el) as Hg1
    by (unfold d1; by rewrite getElementById_setTextContent).
  assert (content el (load s) = Some (cssRef s)) as Hcont.
  { rewrite Eload. unfold content. cbn. by apply getTextContent_setTextContent_eq. }
  assert ((unload (load s)).1 = threw NotFoundError ∧ stuck d1 (unload (load s)).2 ∧
          the_id (unload (load s)).2 = the_id s) as (Hthrow & Hstuck & Hid).
  { rewrite Eload. unfold unload, call_stop. cbn. rewrite Hg1.
    unfold head_removeChild. rewrite bool_decide_eq_false_2 by done. cbn.
    split; [done|]. split; [|done]. split; [done|]. split; [done|].
    unfold idle. cbn. apply Forall_lookup. intros k y Hk.
    destruct (decide (k = length (watchers s))) as [->|Hne].
    - rewrite list_lookup_alter_eq, lookup_app_r, Nat.sub_diag in Hk by lia.
      by injection Hk as <-.
    - rewrite list_lookup_alter_ne in Hk by done.
      destruct (decide (k < length (watchers s))) as [Hk'|Hk'].
      + rewrite lookup_app_l in Hk by done. unfold idle in Hidle.
        rewrite Forall_lookup in Hidle. by apply (Hidle k y).
      + apply lookup_lt_Some in Hk. rewrite length_app in Hk. cbn in Hk. lia. }
  split; [done|]. split; [by rewrite Eload|]. split; [done|].
  assert (isConnected el d1 = true) as Hc1 by exact Hc.
  destruct (stuck_run d1 el t (unload (load s)).2) as [Hs3 Hid3];
    [by rewrite Hid|done|done|].
  destruct Hs3 as (Hd3 & Hl3 & Hidle3).
  split; [done|]. split; [done|]. unfold connected, content. rewrite Hd3. cbn.
  split; [done|]. split; [by apply getTextContent_setTextContent_eq|].
  apply (stuck_unload d1 el); [done| |done].
  by rewrite Hid3, Hid.
Qed.

(** X13.  The style element [load] creates: it is a [style] element, the
    last child of head, it carries the loader's id and a [media] attribute
    exactly when the option is a non-empty string; the nonce option goes to
    the element's nonce slot and no [nonce] attribute is written; its text
    is the current css. *)
Theorem new_style_carries_its_attributes s d :
  document s = Some d → well_formed d → isLoaded s = false →
  getElementById (the_id s) d = None →
  let el := length (nodes d) in
  ∃ d', document (load s) = Some d' ∧
    head d' = head d ++ [el] ∧
    localName <$> nodes d' !! el = Some "style" ∧
    getAttribute "id" el d' = Some (the_id s) ∧
    getAttribute "nonce" el d' = None ∧
    getNonce el d' = Some (default "" (nonce (options s))) ∧
    getAttribute "media" el d' =
      (if truthy (media (options s)) then media (options s) else None) ∧
    getTextContent el d' = Some (cssRef s).
Proof.
  intros Hd Hwf Hl Hg. cbn zeta. eexists. split; [by apply load_creates|].
  destruct (load_grows s d Hd Hwf Hl Hg) as (d1 & Hd1 & Hh & _).
  rewrite (load_creates s d Hd Hwf Hl Hg) in Hd1. injection Hd1 as <-.
  split; [exact Hh|].
  set (el := length (nodes d)). set (d0 := (createElement "style" d).2).
  assert (length (nodes d0) = S el) as Hl0.
  { unfold d0, createElement. cbn. rewrite length_app. cbn. unfold el. lia. }
  assert (∀ n, getAttribute n el d0 = None) as Hbase.
  { intros n. apply (getAttribute_createElement n "style" d). }
  assert (getNonce el d0 = Some "") as Hslot.
  { apply (getNonce_createElement "style" d). }
  set (inner :=
         if truthy (media (options s))
         then setAttribute "media" (default "" (media (options s))) el
                (if truthy (nonce (options s))
                 then setNonce (default "" (nonce (options s))) el
                        (setAttribute "id" (the_id s) el d0)
                 else setAttribute "id" (the_id s) el d0)
         else if truthy (nonce (options s))
              then setNonce (default "" (nonce (options s))) el
                     (setAttribute "id" (the_id s) el d0)
              else setAttribute "id" (the_id s) el d0).
  assert (touches el d0 inner) as Ht.
  { unfold inner. destruct (truthy (media (options s))), (truthy (nonce (options s)));
      repeat (eapply touches_trans;
              [|first [apply touches_setAttribute | apply touches_setNonce]]);
      apply touches_refl. }
  assert (nodes (setTextContent (cssRef s) el (set_up_style s el d0)) =
          nodes (setTextContent (cssRef s) el inner)) as Enodes.
  { unfold set_up_style, inner.
    by destruct (truthy (media (options s))), (truthy (nonce (options s))). }
  split.
  { rewrite Enodes.
    destruct (touches_setTextContent (cssRef s) el inner) as (_ & _ & _ & _ & ->).
    destruct Ht as (_ & _ & _ & _ & ->). unfold d0, createElement. cbn.
    by rewrite lookup_app_r, Nat.sub_diag by lia. }
  unfold getAttribute, getTextContent, getNonce. rewrite Enodes.
  fold (getAttribute "id" el (setTextContent (cssRef s) el inner)).
  fold (getAttribute "nonce" el (setTextContent (cssRef s) el inner)).
  fold (getAttribute "media" el (setTextContent (cssRef s) el inner)).
  fold (getNonce el (setTextContent (cssRef s) el inner)).
  fold (getTextContent el (setTextContent (cssRef s) el inner)).
  rewrite !getAttribute_setTextContent, getNonce_setTextContent. unfold inner.
  split; [|split; [|split; [|split]]].
  - destruct (truthy (media (options s))), (truthy (nonce (options s)));
      rewrite ?getAttribute_setAttribute_ne by (left; discriminate);
      rewrite ?getAttribute_setNonce;
      apply getAttribute_setAttribute_eq; lia.
  - destruct (truthy (media (options s))), (truthy (nonce (options s)));
      rewrite ?getAttribute_setAttribute_ne by (left; discriminate);
      rewrite ?getAttribute_setNonce;
      rewrite ?getAttribute_setAttribute_ne by (left; discriminate);
      apply Hbase.
  - destruct (truthy (media (options s))), (nonce (options s)) as [n|];
      cbn [truthy default]; try case_bool_decide;
      rewrite ?getNonce_setAttribute by discriminate;
      first [ by rewrite getNonce_setNonce by (rewrite ?len_setAttribute; lia)
            | rewrite ?getNonce_setAttribute by discriminate; rewrite Hslot ];
      first [ done | by assert (n = "") as -> by (by destruct (decide (n = ""))) ].
  - destruct (truthy (nonce (options s))), (media (options s)) as [m|];
      cbn [truthy default]; try destruct (bool_decide (m ≠ ""));
      rewrite ?getAttribute_setAttribute_ne by (left; discriminate);
      rewrite ?getAttribute_setNonce;
      rewrite ?getAttribute_setAttribute_ne by (left; discriminate);
      first [ by rewrite getAttribute_setAttribute_eq
                by (rewrite ?len_setNonce, ?len_setAttribute; lia)
            | by rewrite Hbase ].
  - apply getTextContent_setTextContent_eq. fold inner.
    destruct Ht as (-> & _). lia.
Qed.


Lemma sample_document_well_formed : well_formed sample_document.
Proof. split; [constructor|]. intros el Hel. by apply elem_of_nil in Hel. Qed.

Lemma style_in_body_well_formed : well_formed style_in_body.
Proof.
  split; [repeat constructor; by intros H%elem_of_nil|].
  intros el Hel. apply list_elem_of_singleton in Hel as ->. cbn. lia.
Qed.

Lemma load_again_changes_nothing_witness :
  load (run [SetCss "b{}"; Flush] (load sample)) = run [SetCss "b{}"; Flush] (load sample).
Proof.
  apply (load_again_changes_nothing sample sample_document [SetCss "b{}"; Flush]).
  - reflexivity.
  - exact sample_document_well_formed.
  - reflexivity.
  - constructor.
  - vm_compute. discriminate.
  - intros el. vm_compute. discriminate.
Defined.


Lemma load_unload_cycle_restores_witness :
  ∃ d2, document (unload (run [SetCss "b{}"; Flush] (load sample))).2 = Some d2 ∧
        head d2 = [] ∧ length (nodes d2) = 1.
Proof.
  destruct (load_unload_cycle_restores sample sample_document [SetCss "b{}"; Flush])
    as (d2 & Hd & Hh & _ & Hl & _).
  - reflexivity.
  - exact sample_document_well_formed.
  - reflexivity.
  - constructor.
  - vm_compute. discriminate.
  - reflexivity.
  - exists d2. exact (conj Hd (conj Hh Hl)).
Defined.

Lemma unload_outside_head_sticks_witness :
  (unload (load theme)).1 = threw NotFoundError ∧
  content 0 (run [SetCss "b{}"; Flush; Load] (unload (load theme)).2) = Some "a{}".
Proof.
  destruct (unload_outside_head_sticks theme style_in_body 0 [SetCss "b{}"; Flush; Load])
    as (_ & _ & Ht & _ & _ & _ & Hc & _).
  - reflexivity.
  - exact style_in_body_well_formed.
  - reflexivity.
  - constructor.
  - reflexivity.
  - intros H. by apply elem_of_nil in H.
  - exact (conj Ht Hc).
Defined.

Lemma new_style_carries_its_attributes_witness :
  ∃ d', document (load theme_fresh) = Some d' ∧
        getAttribute "id" 0 d' = Some "theme" ∧
        getAttribute "nonce" 0 d' = None ∧
        getNonce 0 d' = Some "abc" ∧
        getAttribute "media" 0 d' = Some "print".
Proof.
  destruct (new_style_carries_its_attributes theme_fresh sample_document)
    as (d' & Hd & _ & _ & Hi & Hn & Hs & Hm & _).
  - reflexivity.
  - exact sample_document_well_formed.
  - reflexivity.
  - reflexivity.
  - exists d'. exact (conj Hd (conj Hi (conj Hn (conj Hs Hm)))).
Defined.

End StyleTagMore.

(** * Further properties of the directive *)

Module DirectiveMore.
Import Dom Directive DirectiveFacts.

Lemma mounted_fields el binding s :
  ∃ reg, r_target reg = el ∧ r_handler reg = handler_of (value binding) ∧
         r_active reg = true ∧
         registrations (mounted el binding s) = registrations s ++ [reg] ∧
         __onClickOutside_stop (mounted el binding s) =
           <[el := length (registrations s)]> (__onClickOutside_stop s) ∧
         stop_calls (mounted el binding s) = stop_calls s.
Proof.
  rewrite mounted_unfold. unfold onClickOutside, store_stop. cbn.
  eexists. by repeat split.
Qed.

Lemma unmounted_stored el r s :
  __onClickOutside_stop s !! el = Some r → unmounted el s = (returned, cancel r s).
Proof. intros H. unfold unmounted. by rewrite H. Qed.

Lemma unmount_times_stored n el r s :
  __onClickOutside_stop s !! el = Some r →
  let s' := unmount_times n el s in
  __onClickOutside_stop s' = __onClickOutside_stop s ∧
  stop_calls s' = stop_calls s ++ replicate n r ∧
  length (registrations s') = length (registrations s) ∧
  (∀ k, k ≠ r → registrations s' !! k = registrations s !! k) ∧
  (0 < n → r < length (registrations s) →
   r_active <$> registrations s' !! r = Some false).
Proof.
  cbn zeta. revert s. induction n as [|n IH]; intros s Hs.
  - cbn. rewrite app_nil_r. repeat split; try done. lia.
  - cbn [unmount_times]. rewrite (unmounted_stored el r s Hs). cbn [snd].
    destruct (IH (cancel r s) Hs) as (H1 & H2 & H3 & H4 & H5).
    split; [done|]. split; [|split; [|split]].
    + rewrite H2. cbn. by rewrite <- app_assoc.
    + rewrite H3. cbn. apply length_alter.
    + intros k Hk. rewrite H4 by done. cbn. by apply list_lookup_alter_ne.
    + intros _ Hr. destruct n as [|n].
      * cbn. rewrite list_lookup_alter_eq.
        destruct (lookup_lt_is_Some_2 (registrations s) r Hr) as [x ->]. done.
      * apply H5; [lia|]. cbn. by rewrite length_alter.
Qed.

(** X14.  Mounting twice on one element.  The second [mounted] overwrites
    the stored cancellation function: however often [unmounted] is then
    called, each call returns normally and cancels the second registration
    again, and the first registration stays active for good. *)
Theorem remount_orphans_first_registration el b1 b2 s n :
  let r1 := length (registrations s) in
  let s2 := mounted el b2 (mounted el b1 s) in
  let s3 := unmount_times n el s2 in
  __onClickOutside_stop s2 !! el = Some (S r1) ∧
  r_active <$> registrations s3 !! r1 = Some true ∧
  stop_calls s3 = stop_calls s ++ replicate n (S r1) ∧
  (0 < n → r_active <$> registrations s3 !! S r1 = Some false).
Proof.
  cbn zeta.
  destruct (mounted_fields el b1 s) as (g1 & _ & _ & Ha1 & Hr1 & Hs1 & Hc1).
  destruct (mounted_fields el b2 (mounted el b1 s)) as (g2 & _ & _ & Ha2 & Hr2 & Hs2 & Hc2).
  rewrite Hr1, length_app in Hs2. cbn in Hs2.
  replace (length (registrations s) + 1) with (S (length (registrations s))) in Hs2 by lia.
  assert (__onClickOutside_stop (mounted el b2 (mounted el b1 s)) !! el =
          Some (S (length (registrations s)))) as Hst.
  { rewrite Hs2. apply lookup_insert_eq. }
  destruct (unmount_times_stored n el _ _ Hst) as (_ & Hcalls & _ & Hother & Hoff).
  split; [done|]. split; [|split].
  - rewrite Hother by lia. rewrite Hr2, Hr1.
    rewrite lookup_app_l by (rewrite length_app; cbn; lia).
    rewrite lookup_app_r, Nat.sub_diag by lia. cbn. by rewrite Ha1.
  - by rewrite Hcalls, Hc2, Hc1.
  - intros Hn. apply Hoff; [done|]. rewrite Hr2, Hr1, !length_app. cbn. lia.
Qed.

Lemma mount_all_stored ms : ∀ s el,
  __onClickOutside_stop (mount_all ms s) !! el = None ↔
  __onClickOutside_stop s !! el = None ∧ el ∉ ms.*1.
Proof.
  induction ms as [|[e b] ms IH]; intros s el.
  - cbn. split; [intros H; split; [done|apply not_elem_of_nil]|by intros [H _]].
  - etrans; [exact (IH (mounted e b s) el)|].
    destruct (mounted_fields e b s) as (g & _ & _ & _ & _ & -> & _). cbn.
    rewrite lookup_insert_None, not_elem_of_cons.
    split; [intros [[? ?] ?]|intros [? [? ?]]]; repeat split; auto; congruence.
Qed.

(** X15.  After the directive has been mounted on some elements, starting
    with none, [unmounted(el)] returns normally exactly for the elements that
    were mounted.  For any other element it throws [TypeError] and changes
    nothing. *)
Theorem unmounted_needs_mounted ms el :
  let s := mount_all ms initial in
  ((unmounted el s).1 = returned ↔ el ∈ ms.*1) ∧
  (el ∉ ms.*1 → unmounted el s = (threw TypeError, s)).
Proof.
  cbn zeta. pose proof (mount_all_stored ms initial el) as H. unfold unmounted.
  destruct (__onClickOutside_stop (mount_all ms initial) !! el) as [r|] eqn:Hs.
  - assert (el ∈ ms.*1) as Hin.
    { destruct (decide (el ∈ ms.*1)) as [|Hn]; [done|].
      assert (Some r = None); [|done]. apply H. split; [apply lookup_empty|done]. }
    split; [done|]. intros Hn. done.
  - destruct H as [H _]. destruct (H eq_refl) as [_ Hn].
    split; [|done]. split; [done|]. intros Hin. done.
Qed.

(** X16.  Mounts on different elements do not interfere.  After mounting on
    [el1] and then on [el2], [unmounted(el1)] cancels the registration of
    [el1] only; that of [el2] stays active and stored, and [unmounted(el2)]
    cancels it afterwards. *)
Theorem mounts_are_independent el1 el2 b1 b2 s :
  el1 ≠ el2 →
  let r1 := length (registrations s) in
  let s2 := mounted el2 b2 (mounted el1 b1 s) in
  let s3 := (unmounted el1 s2).2 in
  (unmounted el1 s2).1 = returned ∧
  stop_calls s3 = stop_calls s ++ [r1] ∧
  r_active <$> registrations s3 !! r1 = Some false ∧
  r_active <$> registrations s3 !! S r1 = Some true ∧
  __onClickOutside_stop s3 !! el2 = Some (S r1) ∧
  (unmounted el2 s3).1 = returned ∧
  stop_calls (unmounted el2 s3).2 = stop_calls s ++ [r1; S r1].
Proof.
  intros Hne. cbn zeta.
  destruct (mounted_fields el1 b1 s) as (g1 & _ & _ & Ha1 & Hr1 & Hs1 & Hc1).
  destruct (mounted_fields el2 b2 (mounted el1 b1 s))
    as (g2 & _ & _ & Ha2 & Hr2 & Hs2 & Hc2).
  rewrite Hr1, length_app in Hs2. cbn in Hs2.
  replace (length (registrations s) + 1) with (S (length (registrations s))) in Hs2 by lia.
  set (s2 := mounted el2 b2 (mounted el1 b1 s)) in *.
  assert (__onClickOutside_stop s2 !! el1 = Some (length (registrations s))) as Hst1.
  { rewrite Hs2, lookup_insert_ne, Hs1 by done. apply lookup_insert_eq. }
  assert (__onClickOutside_stop s2 !! el2 = Some (S (length (registrations s)))) as Hst2.
  { rewrite Hs2. apply lookup_insert_eq. }
  rewrite (unmounted_stored el1 _ s2 Hst1). cbn [fst snd].
  assert (registrations s2 = registrations s ++ [g1; g2]) as Hregs.
  { rewrite Hr2, Hr1. by rewrite <- app_assoc. }
  split; [done|]. split; [cbn; by rewrite Hc2, Hc1|]. split; [|split; [|split]].
  - cbn. rewrite list_lookup_alter_eq, Hregs, lookup_app_r, Nat.sub_diag by lia. done.
  - cbn. rewrite list_lookup_alter_ne, Hregs, lookup_app_r by lia.
    replace (S (length (registrations s)) - length (registrations s)) with 1 by lia.
    cbn. by rewrite Ha2.
  - exact Hst2.
  - rewrite (unmounted_stored el2 (S (length (registrations s)))); [|exact Hst2].
    cbn. rewrite Hc2, Hc1. by rewrite <- app_assoc.
Qed.

(** X17.  The options handed to the primitive.  For a bare handler they are
    exactly [{ capture }].  For a [[handler, options]] binding every property
    of the user's options other than [capture] arrives unchanged, nothing is
    added besides [capture], and [capture] is always present. *)
Theorem mounted_passes_options_on el binding s :
  ∃ reg, registrations (mounted el binding s) !! length (registrations s) = Some reg ∧
    match value binding with
    | function_value _ => r_options reg = {[ "capture" := js_bool (not_bubble binding) ]}
    | array_value _ options =>
      (∀ k, k ≠ "capture" → r_options reg !! k = options !! k) ∧
      is_Some (r_options reg !! "capture")
    end.
Proof.
  rewrite mounted_unfold. unfold onClickOutside, store_stop. cbn.
  eexists. rewrite lookup_app_r, Nat.sub_diag by lia. split; [done|]. cbn.
  destruct (value binding) as [h|h options]; [done|]. split.
  - intros k Hk. rewrite Object_assign_lookup.
    destruct (options !! k); [done|]. by apply lookup_singleton_ne.
  - rewrite Object_assign_lookup. destruct (options !! "capture"); [by eexists|].
    rewrite lookup_singleton_eq. by eexists.
Qed.

Lemma remount_orphans_first_registration_witness :
  r_active <$> registrations
    (unmount_times 3 0 (mounted 0 bubble_function (mounted 0 with_ignore initial))) !! 0
  = Some true.
Proof.
  destruct (remount_orphans_first_registration 0 with_ignore bubble_function initial 3)
    as (_ & H & _).
  exact H.
Defined.

Lemma unmounted_needs_mounted_witness :
  unmounted 5 (mount_all [(0, with_ignore); (1, bubble_function)] initial) =
  (threw TypeError, mount_all [(0, with_ignore); (1, bubble_function)] initial).
Proof.
  destruct (unmounted_needs_mounted [(0, with_ignore); (1, bubble_function)] 5) as [_ H].
  apply H. intros Hin. repeat (apply elem_of_cons in Hin as [Hin|Hin]; [discriminate|]).
  by apply elem_of_nil in Hin.
Defined.

Lemma mounts_are_independent_witness :
  stop_calls (unmounted 1 (unmounted 0
     (mounted 1 bubble_function (mounted 0 with_ignore initial))).2).2 = [0; 1].
Proof.
  destruct (mounts_are_independent 0 1 with_ignore bubble_function initial ltac:(discriminate))
    as (_ & _ & _ & _ & _ & _ & H).
  exact H.
Defined.

Lemma mounted_passes_options_on_witness :
  ∃ reg, registrations (mounted 0 with_ignore initial) !! 0 = Some reg ∧
         r_options reg !! "ignore" = Some (js_object 9).
Proof.
  destruct (mounted_passes_options_on 0 with_ignore initial) as (reg & Hr & Hk & _).
  exists reg. split; [exact Hr|]. rewrite Hk by discriminate. reflexivity.
Defined.

End DirectiveMore.
